(** * Chess coach: live analysis session and move navigation

    A shallow embedding of the two stateful parts of the front end:

    - [Api]: the module exporting [analyzePosition] and the class
      [AnalysisWebSocket] (constructor, [connect] with its four socket
      handlers, [fallbackToHttp], [tryReconnect], [analyze], [disconnect]);
    - [Coach]: the navigation code of the [ChessCoach] component
      ([loadGame], [goToMove], [goToNextMove], [goToPreviousMove],
      [bestMoveToArrow], the arrows effect, [makeMove], [resetGame]).

    The browser (WebSocket objects, timers, fetch) is modelled as an explicit
    world that the methods transform; the chess rules library is an interface
    the navigation code is parameterised by. *)

From Stdlib Require Import ZArith String Ascii List Bool Lia DecimalString QArith.
From stdpp Require Import list strings.

Local Open Scope string_scope.
Local Open Scope list_scope.
Local Open Scope Z_scope.

(** ** JavaScript values and JSON text *)

Module JS.

(** The values that reach the [fen] and [move] parameters: a string, or one
    of the two absent values.  A character of a [string] stands for one code
    unit. *)
Inductive Value : Type :=
| Undefined
| Null
| Str (s : string).

(** [!v] is false exactly for a non-empty string. *)
Definition truthy (v : Value) : bool :=
  match v with
  | Str (String _ _) => true
  | _ => false
  end.

Definition falsy (v : Value) : bool := negb (truthy v).

(** [s.substring(a, b)]: both indices are clamped to [0, s.length] and
    swapped when [a > b]. *)
Definition clamp (len i : Z) : Z := Z.max 0 (Z.min i len).

Definition substring (a b : Z) (s : string) : string :=
  let len := Z.of_nat (String.length s) in
  let a' := clamp len a in
  let b' := clamp len b in
  let lo := Z.min a' b' in
  let hi := Z.max a' b' in
  String.substring (Z.to_nat lo) (Z.to_nat (hi - lo)) s.

(** The values [JSON.stringify] is applied to in this program. *)
#[local] Set Warnings "-register-all".
Inductive Json : Type :=
| JNull
| JNumber (n : Z)
| JString (s : string)
| JObject (fields : list (string * Json)).

Definition dquote : string := String "034"%char EmptyString.
Definition backslash : string := String "092"%char EmptyString.

Definition hex_digit (n : nat) : string :=
  String.substring n 1 "0123456789abcdef".

(** One code unit inside a JSON string literal (QuoteJSONString). *)
Definition quote_char (c : ascii) : string :=
  let n := nat_of_ascii c in
  if (n =? 8)%nat then backslash +:+ "b"
  else if (n =? 9)%nat then backslash +:+ "t"
  else if (n =? 10)%nat then backslash +:+ "n"
  else if (n =? 12)%nat then backslash +:+ "f"
  else if (n =? 13)%nat then backslash +:+ "r"
  else if (n =? 34)%nat then backslash +:+ dquote
  else if (n =? 92)%nat then backslash +:+ backslash
  else if (n <? 32)%nat then
    backslash +:+ "u00" +:+ hex_digit (n / 16) +:+ hex_digit (n mod 16)
  else String c EmptyString.

Fixpoint quote_body (s : string) : string :=
  match s with
  | EmptyString => EmptyString
  | String c rest => quote_char c +:+ quote_body rest
  end.

Definition quote (s : string) : string := dquote +:+ quote_body s +:+ dquote.

Definition number_to_string (n : Z) : string :=
  NilZero.string_of_int (Z.to_int n).

(** [JSON.stringify(v)] without indentation: members in insertion order,
    separated by commas. *)
Fixpoint stringify (v : Json) : string :=
  match v with
  | JNull => "null"
  | JNumber n => number_to_string n
  | JString s => quote s
  | JObject fields =>
      let fix members (fs : list (string * Json)) : string :=
        match fs with
        | [] => EmptyString
        | [(k, x)] => quote k +:+ ":" +:+ stringify x
        | (k, x) :: rest => quote k +:+ ":" +:+ stringify x +:+ "," +:+ members rest
        end in
      "{" +:+ members fields +:+ "}"
  end.

(** A property of an object literal: a member whose value is [undefined] is
    left out by [JSON.stringify]. *)
Definition member (key : string) (v : Value) : list (string * Json) :=
  match v with
  | Undefined => []
  | Null => [(key, JNull)]
  | Str s => [(key, JString s)]
  end.

Definition keys (v : Json) : list string :=
  match v with
  | JObject fields => map fst fields
  | _ => []
  end.

End JS.

(** ** The analysis client: [analyzePosition] and [AnalysisWebSocket] *)

Module Api.
Import JS.

Definition API_URL : string := "http://localhost:8000".
Definition WS_URL : string := "ws://localhost:8000/ws".

(** What the analysis service answers, on either path. *)
Record Analysis : Type := {
  evaluation : Q;
  is_mate : bool;
  mate_in : Z;
  best_move : Value
}.

(** [event.data] of a message event, by what [JSON.parse] makes of it. *)
Inductive Payload : Type :=
| Parses (analysis : Analysis)
| Malformed (raw : string).

(** [readyState] of a WebSocket object. *)
Inductive ReadyState : Type := CONNECTING | OPEN | CLOSING | CLOSED.

#[global] Instance ReadyState_eq_dec : EqDecision ReadyState.
Proof. solve_decision. Defined.

Record HttpRequest : Type := {
  url : string;
  method : string;
  content_type : string;
  body : string
}.

(** How the request of [analyzePosition] ends. *)
Inductive HttpOutcome : Type :=
| Answered (result : Analysis)   (* response.ok, and response.json() resolves *)
| NotOk (errorText : string)     (* !response.ok: throws "Analysis failed: ..." *)
| Failed.                        (* fetch or response.json() rejects *)

(** One entry for each console call of the module. *)
Inductive ConsoleEntry : Type :=
| LogSendingHttp (fen : Value)
| LogReceivedHttp (result : Analysis)
| ErrAnalyzing
| LogConnecting
| LogConnected
| LogReceived (analysis : Analysis)
| ErrParsing
| LogClosed
| ErrWebSocket
| ErrFallbackFailed
| LogReconnecting (attempt limit : Z)
| LogAnalyze (fen : Value).

(** What the module does to the outside, in the order it does it. *)
Inductive Effect : Type :=
| NewWebSocket (address : string) (id : nat)
| SocketClose (id : nat)
| SocketSend (id : nat) (data : string)
| Fetch (request : HttpRequest)
| SetTimeout (delay : Z)
| OnAnalysis (analysis : Analysis)
| Console (entry : ConsoleEntry).

(** The fields of an [AnalysisWebSocket] object.  [ws] is [null] or one of
    the sockets of the world; [onAnalysis] is the host's callback, whose
    calls are recorded as [OnAnalysis] effects. *)
Record AnalysisWebSocket : Type := {
  ws : option nat;
  reconnectAttempts : Z;
  maxReconnectAttempts : Z;
  connected : bool
}.

(** The object together with the browser state it acts on. *)
Record World : Type := {
  this : AnalysisWebSocket;
  sockets : list ReadyState;      (* the WebSocket objects created so far *)
  timers : list Z;                (* pending setTimeout(() => this.connect(), delay) *)
  inflight : list HttpRequest;    (* fallback requests awaiting their outcome *)
  effects : list Effect
}.

Definition set_this (f : AnalysisWebSocket -> AnalysisWebSocket) (w : World) : World :=
  {| this := f (this w); sockets := sockets w; timers := timers w;
     inflight := inflight w; effects := effects w |}.

Definition set_sockets (f : list ReadyState -> list ReadyState) (w : World) : World :=
  {| this := this w; sockets := f (sockets w); timers := timers w;
     inflight := inflight w; effects := effects w |}.

Definition set_timers (f : list Z -> list Z) (w : World) : World :=
  {| this := this w; sockets := sockets w; timers := f (timers w);
     inflight := inflight w; effects := effects w |}.

Definition set_inflight (f : list HttpRequest -> list HttpRequest) (w : World) : World :=
  {| this := this w; sockets := sockets w; timers := timers w;
     inflight := f (inflight w); effects := effects w |}.

Definition emit (e : Effect) (w : World) : World :=
  {| this := this w; sockets := sockets w; timers := timers w;
     inflight := inflight w; effects := effects w ++ [e] |}.

Definition set_ws (v : option nat) (o : AnalysisWebSocket) : AnalysisWebSocket :=
  {| ws := v; reconnectAttempts := reconnectAttempts o;
     maxReconnectAttempts := maxReconnectAttempts o; connected := connected o |}.

Definition set_reconnectAttempts (n : Z) (o : AnalysisWebSocket) : AnalysisWebSocket :=
  {| ws := ws o; reconnectAttempts := n;
     maxReconnectAttempts := maxReconnectAttempts o; connected := connected o |}.

Definition set_connected (b : bool) (o : AnalysisWebSocket) : AnalysisWebSocket :=
  {| ws := ws o; reconnectAttempts := reconnectAttempts o;
     maxReconnectAttempts := maxReconnectAttempts o; connected := b |}.

(** *** The browser side *)

(** [socket.close()]: a socket that is connecting or open starts closing;
    one that is closing or closed stays as it is. *)
Definition closing (s : ReadyState) : ReadyState :=
  match s with
  | CONNECTING | OPEN => CLOSING
  | CLOSING => CLOSING
  | CLOSED => CLOSED
  end.

Definition socket_close (id : nat) (w : World) : World :=
  emit (SocketClose id)
    (set_sockets (fun ss => match ss !! id with
                            | Some s => <[id := closing s]> ss
                            | None => ss
                            end) w).

(** [new WebSocket(address)]: a fresh socket, connecting. *)
Definition new_WebSocket (address : string) (w : World) : nat * World :=
  let id := length (sockets w) in
  (id, emit (NewWebSocket address id) (set_sockets (fun ss => ss ++ [CONNECTING]) w)).

Definition readyState (id : nat) (w : World) : option ReadyState := sockets w !! id.

(** [this.ws && this.ws.readyState === WebSocket.OPEN] *)
Definition channel_open (w : World) : bool :=
  match ws (this w) with
  | Some id => bool_decide (readyState id w = Some OPEN)
  | None => false
  end.

(** *** [analyzePosition(fen, depth = 20)] up to its first await: the
    request is logged and issued. *)
Definition request_body (fen : Value) (depth : Z) : Json :=
  JObject (member "fen" fen ++ [("depth", JNumber depth)]).   (* { fen, depth } *)

Definition request_of (fen : Value) (depth : option Z) : HttpRequest :=
  let depth := match depth with Some d => d | None => 20 end in
  {| url := API_URL +:+ "/analyze";
     method := "POST";
     content_type := "application/json";
     body := stringify (request_body fen depth) |}.

Definition analyzePosition (fen : Value) (depth : option Z) (w : World) : World :=
  let request := request_of fen depth in
  set_inflight (fun rs => rs ++ [request])
    (emit (Fetch request) (emit (Console (LogSendingHttp fen)) w)).

(** *** The class *)

Definition constructor : World :=
  {| this := {| ws := None; reconnectAttempts := 0;
                maxReconnectAttempts := 5; connected := false |};
     sockets := []; timers := []; inflight := []; effects := [] |}.

Definition connect (w : World) : World :=
  let w := match ws (this w) with
           | Some id => socket_close id w
           | None => w
           end in
  let w := emit (Console LogConnecting) w in
  let (id, w) := new_WebSocket WS_URL w in
  set_this (set_ws (Some id)) w.

Definition onopen (w : World) : World :=
  let w := emit (Console LogConnected) w in
  let w := set_this (set_connected true) w in
  set_this (set_reconnectAttempts 0) w.

Definition onmessage (data : Payload) (w : World) : World :=
  match data with
  | Parses analysis =>
      emit (OnAnalysis analysis) (emit (Console (LogReceived analysis)) w)
  | Malformed _ => emit (Console ErrParsing) w
  end.

Definition tryReconnect (w : World) : World :=
  if reconnectAttempts (this w) <? maxReconnectAttempts (this w) then
    let w := set_this (set_reconnectAttempts (reconnectAttempts (this w) + 1)) w in
    let w := emit (Console (LogReconnecting (reconnectAttempts (this w))
                                            (maxReconnectAttempts (this w)))) w in
    emit (SetTimeout 2000) (set_timers (fun ts => ts ++ [2000]) w)
  else w.

Definition onclose (w : World) : World :=
  let w := emit (Console LogClosed) w in
  let w := set_this (set_connected false) w in
  tryReconnect w.

(** [fallbackToHttp(fen)] up to its await. *)
Definition fallbackToHttp (fen : Value) (w : World) : World :=
  if falsy fen then w else analyzePosition fen None w.

(** The rest of [fallbackToHttp], run when the request ends; the two
    failures pass through the catch of [analyzePosition], which logs and
    throws again, into the catch of [fallbackToHttp]. *)
Definition fallback_settled (outcome : HttpOutcome) (w : World) : World :=
  match outcome with
  | Answered result =>
      emit (OnAnalysis result) (emit (Console (LogReceivedHttp result)) w)
  | NotOk _ | Failed =>
      emit (Console ErrFallbackFailed) (emit (Console ErrAnalyzing) w)
  end.

(** The error handler calls [this.fallbackToHttp()] with no argument. *)
Definition onerror (w : World) : World :=
  fallbackToHttp Undefined (emit (Console ErrWebSocket) w).

Definition channel_message (fen : Value) : Json :=
  JObject (member "fen" fen).                                  (* { fen } *)

Definition analyze (fen : Value) (w : World) : World :=
  if falsy fen then w
  else
    let w := emit (Console (LogAnalyze fen)) w in
    if channel_open w then
      match ws (this w) with
      | Some id => emit (SocketSend id (stringify (channel_message fen))) w
      | None => w
      end
    else fallbackToHttp fen w.

Definition disconnect (w : World) : World :=
  match ws (this w) with
  | Some id => set_this (set_connected false) (socket_close id w)
  | None => w
  end.

(** *** Runs *)

(** What can happen to the object: the host calls a method, or the browser
    delivers an event of a socket, fires a pending timer, or ends a pending
    request. *)
Inductive Event : Type :=
| Call_connect
| Call_analyze (fen : Value)
| Call_disconnect
| Socket_open (id : nat)
| Socket_message (id : nat) (data : Payload)
| Socket_error (id : nat)
| Socket_close (id : nat)
| Timer_fires (k : nat)
| Request_ends (k : nat) (outcome : HttpOutcome).

Definition mark (id : nat) (s : ReadyState) (w : World) : World :=
  set_sockets (fun ss => <[id := s]> ss) w.

(** A socket event runs the handler that [connect] attached to the socket;
    a timer or a request has a callback only while it is pending. *)
Definition step (e : Event) (w : World) : World :=
  match e with
  | Call_connect => connect w
  | Call_analyze fen => analyze fen w
  | Call_disconnect => disconnect w
  | Socket_open id => onopen (mark id OPEN w)
  | Socket_message _ data => onmessage data w
  | Socket_error _ => onerror w
  | Socket_close id => onclose (mark id CLOSED w)
  | Timer_fires k =>
      match timers w !! k with
      | Some _ => connect (set_timers (delete k) w)
      | None => w
      end
  | Request_ends k outcome =>
      match inflight w !! k with
      | Some _ => fallback_settled outcome (set_inflight (delete k) w)
      | None => w
      end
  end.

Fixpoint run (es : list Event) (w : World) : World :=
  match es with
  | [] => w
  | e :: es' => run es' (step e w)
  end.

(** When the browser can deliver an event: a socket opens while connecting,
    receives while open, and fails or closes unless already closed. *)
Definition enabled (e : Event) (w : World) : bool :=
  match e with
  | Call_connect | Call_analyze _ | Call_disconnect => true
  | Socket_open id => bool_decide (readyState id w = Some CONNECTING)
  | Socket_message id _ => bool_decide (readyState id w = Some OPEN)
  | Socket_error id | Socket_close id =>
      match readyState id w with
      | Some CLOSED | None => false
      | Some _ => true
      end
  | Timer_fires k => bool_decide (is_Some (timers w !! k))
  | Request_ends k _ => bool_decide (is_Some (inflight w !! k))
  end.

Fixpoint feasible (es : list Event) (w : World) : bool :=
  match es with
  | [] => true
  | e :: es' => enabled e w && feasible es' (step e w)
  end.

Definition is_open (e : Event) : bool :=
  match e with Socket_open _ => true | _ => false end.

Definition is_close (e : Event) : bool :=
  match e with Socket_close _ => true | _ => false end.

Definition is_connect_call (e : Event) : bool :=
  match e with Call_connect => true | _ => false end.

Definition is_SetTimeout (e : Effect) : bool :=
  match e with SetTimeout _ => true | _ => false end.

Definition is_NewWebSocket (e : Effect) : bool :=
  match e with NewWebSocket _ _ => true | _ => false end.

Definition is_SocketSend (e : Effect) : bool :=
  match e with SocketSend _ _ => true | _ => false end.

Definition is_Fetch (e : Effect) : bool :=
  match e with Fetch _ => true | _ => false end.

(** How many effects of a kind a world has seen. *)
Fixpoint tally (p : Effect -> bool) (es : list Effect) : nat :=
  match es with
  | [] => 0
  | e :: es' => (if p e then 1 else 0) + tally p es'
  end.

Definition count (p : Effect -> bool) (w : World) : nat := tally p (effects w).

(** How many closures a list of events holds, and whether it holds no
    successful open. *)
Fixpoint closures (es : list Event) : nat :=
  match es with
  | [] => 0
  | e :: es' => (if is_close e then 1 else 0) + closures es'
  end.

Definition no_open (es : list Event) : bool := forallb (fun e => negb (is_open e)) es.

Definition no_connect_call (es : list Event) : bool :=
  forallb (fun e => negb (is_connect_call e)) es.

(** *** Sample runs *)

(** The position before the first move. *)
Definition START_FEN : string :=
  "rnbqkbnr/pppppppp/8/8/8/8/PPPPPPPP/RNBQKBNR w KQkq - 0 1".

(** The host connects and the socket opens. *)
Definition after_open : World := run [Call_connect; Socket_open 0%nat] constructor.

(** The host connects and the socket closes without opening. *)
Definition after_failed_connect : World :=
  run [Call_connect; Socket_close 0%nat] constructor.

(** Six connections in a row that close without opening, each but the first
    made by the timer of the closure before. *)
Definition six_failures : list Event :=
  [Socket_close 0%nat; Timer_fires 0%nat; Socket_close 1%nat;
   Timer_fires 0%nat; Socket_close 2%nat; Timer_fires 0%nat;
   Socket_close 3%nat; Timer_fires 0%nat; Socket_close 4%nat;
   Timer_fires 0%nat; Socket_close 5%nat].

End Api.

(** ** The navigation code of the [ChessCoach] component *)

Module Coach.
Import JS.

(** How a call ends: it returns, or an exception leaves it. *)
Inductive Completion (A : Type) : Type :=
| Returns (a : A)
| Throws.
Arguments Returns {A} a.
Arguments Throws {A}.

(** What [chess.move(m)] does: the move is played and its move object
    returned, or the move is refused, by a [null] result or by an exception
    ([makeMove] provides for both). *)
Inductive MoveOutcome (Chess Move : Type) : Type :=
| Moved (after : Chess) (result : Move)
| Refused
| Raised.
Arguments Moved {Chess Move} after result.
Arguments Refused {Chess Move}.
Arguments Raised {Chess Move}.

(** The rules library, as far as the component uses it. *)
Class RulesEngine : Type := {
  Chess : Type;                                 (* a Chess instance *)
  Move : Type;                                  (* a move object or descriptor *)
  new_Chess : Chess;                            (* new Chess() *)
  Chess_of_fen : string -> Completion Chess;    (* new Chess(fen) *)
  fen : Chess -> string;                        (* chess.fen() *)
  move : Chess -> Move -> MoveOutcome Chess Move;
  (* on a fresh instance, loadPgn(text) followed by history({verbose: true});
     loadPgn throws on a text it cannot parse *)
  loadPgn : string -> Completion (list Move);
  san : Move -> string                          (* the san of a move object *)
}.

(** An arrow of the board: origin, destination, colour. *)
Definition Arrow : Type := string * string * string.

Definition ARROW_COLOUR : string := "rgb(0, 128, 255)".

Definition INVALID_PGN : string := "Invalid PGN format. Please check your input".

Section Component.
Context {engine : RulesEngine}.

(** The state hooks of the component ([ws] is the object of [Api]). *)
Record State : Type := {
  game : Chess;
  moveHistory : list string;
  analysis : option Api.Analysis;
  isAnalyzing : bool;
  arrows : list Arrow;
  showBestMove : bool;
  currentMoveIndex : Z;
  moves : list Move;
  isReviewMode : bool;
  playerColor : string;
  pgnInput : string;
  errorMessage : string
}.

Definition setGame (g : Chess) (st : State) : State :=
  {| game := g; moveHistory := moveHistory st; analysis := analysis st;
     isAnalyzing := isAnalyzing st; arrows := arrows st;
     showBestMove := showBestMove st; currentMoveIndex := currentMoveIndex st;
     moves := moves st; isReviewMode := isReviewMode st;
     playerColor := playerColor st; pgnInput := pgnInput st;
     errorMessage := errorMessage st |}.

Definition setMoveHistory (h : list string) (st : State) : State :=
  {| game := game st; moveHistory := h; analysis := analysis st;
     isAnalyzing := isAnalyzing st; arrows := arrows st;
     showBestMove := showBestMove st; currentMoveIndex := currentMoveIndex st;
     moves := moves st; isReviewMode := isReviewMode st;
     playerColor := playerColor st; pgnInput := pgnInput st;
     errorMessage := errorMessage st |}.

Definition setAnalysis (a : option Api.Analysis) (st : State) : State :=
  {| game := game st; moveHistory := moveHistory st; analysis := a;
     isAnalyzing := isAnalyzing st; arrows := arrows st;
     showBestMove := showBestMove st; currentMoveIndex := currentMoveIndex st;
     moves := moves st; isReviewMode := isReviewMode st;
     playerColor := playerColor st; pgnInput := pgnInput st;
     errorMessage := errorMessage st |}.

Definition setArrows (a : list Arrow) (st : State) : State :=
  {| game := game st; moveHistory := moveHistory st; analysis := analysis st;
     isAnalyzing := isAnalyzing st; arrows := a;
     showBestMove := showBestMove st; currentMoveIndex := currentMoveIndex st;
     moves := moves st; isReviewMode := isReviewMode st;
     playerColor := playerColor st; pgnInput := pgnInput st;
     errorMessage := errorMessage st |}.

Definition setShowBestMove (b : bool) (st : State) : State :=
  {| game := game st; moveHistory := moveHistory st; analysis := analysis st;
     isAnalyzing := isAnalyzing st; arrows := arrows st;
     showBestMove := b; currentMoveIndex := currentMoveIndex st;
     moves := moves st; isReviewMode := isReviewMode st;
     playerColor := playerColor st; pgnInput := pgnInput st;
     errorMessage := errorMessage st |}.

Definition setCurrentMoveIndex (i : Z) (st : State) : State :=
  {| game := game st; moveHistory := moveHistory st; analysis := analysis st;
     isAnalyzing := isAnalyzing st; arrows := arrows st;
     showBestMove := showBestMove st; currentMoveIndex := i;
     moves := moves st; isReviewMode := isReviewMode st;
     playerColor := playerColor st; pgnInput := pgnInput st;
     errorMessage := errorMessage st |}.

Definition setMoves (ms : list Move) (st : State) : State :=
  {| game := game st; moveHistory := moveHistory st; analysis := analysis st;
     isAnalyzing := isAnalyzing st; arrows := arrows st;
     showBestMove := showBestMove st; currentMoveIndex := currentMoveIndex st;
     moves := ms; isReviewMode := isReviewMode st;
     playerColor := playerColor st; pgnInput := pgnInput st;
     errorMessage := errorMessage st |}.

Definition setIsReviewMode (b : bool) (st : State) : State :=
  {| game := game st; moveHistory := moveHistory st; analysis := analysis st;
     isAnalyzing := isAnalyzing st; arrows := arrows st;
     showBestMove := showBestMove st; currentMoveIndex := currentMoveIndex st;
     moves := moves st; isReviewMode := b;
     playerColor := playerColor st; pgnInput := pgnInput st;
     errorMessage := errorMessage st |}.

Definition setPgnInput (s : string) (st : State) : State :=
  {| game := game st; moveHistory := moveHistory st; analysis := analysis st;
     isAnalyzing := isAnalyzing st; arrows := arrows st;
     showBestMove := showBestMove st; currentMoveIndex := currentMoveIndex st;
     moves := moves st; isReviewMode := isReviewMode st;
     playerColor := playerColor st; pgnInput := s;
     errorMessage := errorMessage st |}.

Definition setErrorMessage (s : string) (st : State) : State :=
  {| game := game st; moveHistory := moveHistory st; analysis := analysis st;
     isAnalyzing := isAnalyzing st; arrows := arrows st;
     showBestMove := showBestMove st; currentMoveIndex := currentMoveIndex st;
     moves := moves st; isReviewMode := isReviewMode st;
     playerColor := playerColor st; pgnInput := pgnInput st;
     errorMessage := s |}.

(** The state of the first render. *)
Definition initial : State :=
  {| game := new_Chess; moveHistory := []; analysis := None;
     isAnalyzing := false; arrows := []; showBestMove := false;
     currentMoveIndex := 0; moves := []; isReviewMode := false;
     playerColor := "white"; pgnInput := EmptyString;
     errorMessage := EmptyString |}.

(** A handler that throws has called no setter: the state stays. *)
Definition settle (c : Completion State) (st : State) : State :=
  match c with
  | Returns st' => st'
  | Throws => st
  end.

(** [loadGame]: the setters run only once [loadPgn] has returned; its
    exception is caught and reported. *)
Definition loadGame (st : State) : State :=
  match loadPgn (pgnInput st) with
  | Returns history =>
      let st := setGame new_Chess st in
      let st := setMoves history st in
      let st := setCurrentMoveIndex 0 st in
      let st := setIsReviewMode true st in
      let st := setErrorMessage EmptyString st in
      setMoveHistory (map san history) st
  | Throws => setErrorMessage INVALID_PGN st
  end.

(** The loop of [goToMove], entered at [i] with [rest] the moves from
    index [i] on:
    [for (; i <= index && i < moves.length; i++) newGame.move(moves[i])].
    The result of [move] is not looked at. *)
Fixpoint replay (i : Z) (rest : list Move) (index : Z) (newGame : Chess)
  : Completion Chess :=
  match rest with
  | [] => Returns newGame
  | m :: rest' =>
      if i <=? index then
        match move newGame m with
        | Moved after _ => replay (i + 1) rest' index after
        | Refused => replay (i + 1) rest' index newGame
        | Raised => Throws
        end
      else Returns newGame
  end.

Definition goToMove (index : Z) (st : State) : Completion State :=
  match replay 0 (moves st) index new_Chess with
  | Returns newGame =>
      let st := setGame newGame st in
      let st := setCurrentMoveIndex index st in
      Returns (setShowBestMove false st)
  | Throws => Throws
  end.

Definition goToNextMove (st : State) : Completion State :=
  if currentMoveIndex st <? Z.of_nat (length (moves st)) - 1
  then goToMove (currentMoveIndex st + 1) st
  else Returns st.

Definition goToPreviousMove (st : State) : Completion State :=
  if currentMoveIndex st >? 0
  then goToMove (currentMoveIndex st - 1) st
  else Returns st.

Definition bestMoveToArrow (move : Value) : list Arrow :=
  match move with
  | Undefined | Null => []
  | Str s =>
      if falsy move || (Z.of_nat (String.length s) <? 4) then []
      else if String.eqb s "e1g1" then [("e1", "g1", ARROW_COLOUR)]
      else if String.eqb s "e1c1" then [("e1", "c1", ARROW_COLOUR)]
      else if String.eqb s "e8g8" then [("e8", "g8", ARROW_COLOUR)]
      else if String.eqb s "e8c8" then [("e8", "c8", ARROW_COLOUR)]
      else [(substring 0 2 s, substring 2 4 s, ARROW_COLOUR)]
  end.

(** The effect on [analysis] and [showBestMove]. *)
Definition arrows_effect (st : State) : State :=
  match analysis st with
  | Some a =>
      if showBestMove st && truthy (Api.best_move a)
      then setArrows (bestMoveToArrow (Api.best_move a)) st
      else setArrows [] st
  | None => setArrows [] st
  end.

(** [makeMove(move)]: the copy is built outside the try; a refusal of
    either kind returns false and sets nothing. *)
Definition makeMove (m : Move) (st : State) : Completion (bool * State) :=
  match Chess_of_fen (fen (game st)) with
  | Throws => Throws
  | Returns gameCopy =>
      match move gameCopy m with
      | Moved after result =>
          let st := setGame after st in
          let st := setMoveHistory (moveHistory st ++ [san result]) st in
          Returns (true, setShowBestMove false st)
      | Refused | Raised => Returns (false, st)
      end
  end.

Definition resetGame (st : State) : State :=
  setShowBestMove false (setMoveHistory [] (setGame new_Chess st)).

(** The moves [0 .. index] of a list, as far as the list goes. *)
Definition upto (index : Z) (ms : list Move) : list Move :=
  firstn (Z.to_nat (index + 1)) ms.

(** Playing a list of moves in order from a given instance. *)
Fixpoint play (ms : list Move) (g : Chess) : Completion Chess :=
  match ms with
  | [] => Returns g
  | m :: ms' =>
      match move g m with
      | Moved after _ => play ms' after
      | Refused => play ms' g
      | Raised => Throws
      end
  end.

(** The bounds of the cursor as the data model states them. *)
Definition cursor_in_bounds (st : State) : Prop :=
  -1 <= currentMoveIndex st < Z.of_nat (length (moves st)).

End Component.

End Coach.

(** ** A miniature rules engine

    One king on an empty board, used to run the navigation code on concrete
    inputs.  A game text is a list of destination squares separated by
    spaces, optionally preceded by a set-up token ([@] and a square) that
    places the king before the first move, as a set-up header of a game
    record does.  The theorems below hold for every [RulesEngine]; this one
    only supplies examples. *)

Module KingWalk.
Import Coach.

Definition Square : Type := (nat * nat)%type.   (* file and rank, from 0 *)

Definition on_board (sq : Square) : bool :=
  ((fst sq <? 8) && (snd sq <? 8))%nat.

Definition square_name (sq : Square) : string :=
  String (ascii_of_nat (97 + fst sq)) (String (ascii_of_nat (49 + snd sq)) EmptyString).

Definition square_of_name (s : string) : option Square :=
  match s with
  | String f (String r EmptyString) =>
      let sq := ((nat_of_ascii f - 97)%nat, (nat_of_ascii r - 49)%nat) in
      if ((97 <=? nat_of_ascii f) && (49 <=? nat_of_ascii r) && on_board sq)%nat
      then Some sq else None
  | _ => None
  end.

Definition near (a b : nat) : bool := ((a <=? b + 1) && (b <=? a + 1))%nat.

Definition king_step (a b : Square) : bool :=
  on_board b && near (fst a) (fst b) && near (snd a) (snd b)
  && negb (((fst a =? fst b) && (snd a =? snd b))%nat).

Definition e1 : Square := (4%nat, 0%nat).

Definition walk_move (king : Square) (m : Square * Square)
  : MoveOutcome Square (Square * Square) :=
  if ((fst (fst m) =? fst king) && (snd (fst m) =? snd king))%nat && king_step king (snd m)
  then Moved (snd m) m
  else Raised.

Fixpoint words_from (s current : string) : list string :=
  match s with
  | EmptyString =>
      match current with EmptyString => [] | _ => [current] end
  | String c rest =>
      if Ascii.eqb c " "%char then
        match current with
        | EmptyString => words_from rest EmptyString
        | _ => current :: words_from rest EmptyString
        end
      else words_from rest (current +:+ String c EmptyString)
  end.

Definition words (s : string) : list string := words_from s EmptyString.

Fixpoint walk (king : Square) (targets : list string)
  : Completion (list (Square * Square)) :=
  match targets with
  | [] => Returns []
  | t :: targets' =>
      match square_of_name t with
      | Some sq =>
          if king_step king sq then
            match walk sq targets' with
            | Returns history => Returns ((king, sq) :: history)
            | Throws => Throws
            end
          else Throws
      | None => Throws
      end
  end.

Definition walk_loadPgn (text : string) : Completion (list (Square * Square)) :=
  match words text with
  | String "@"%char name :: targets =>
      match square_of_name name with
      | Some start => walk start targets
      | None => Throws
      end
  | targets => walk e1 targets
  end.

#[global] Instance engine : RulesEngine := {|
  Chess := Square;
  Move := Square * Square;
  new_Chess := e1;
  Chess_of_fen := fun s => match square_of_name s with
                           | Some sq => Returns sq
                           | None => Throws
                           end;
  fen := square_name;
  move := walk_move;
  loadPgn := walk_loadPgn;
  san := fun m => "K" +:+ square_name (snd m)
|}.

(** *** Sample states *)

(** A game of three moves, loaded from the first render. *)
Definition three_moves : State := loadGame (setPgnInput "e2 e3 d4" initial).

(** A game that starts from a set-up position, so that its first move is
    not playable from the position of [new_Chess]. *)
Definition set_up_game : State := loadGame (setPgnInput "@e4 e5" initial).

(** A text that is no game. *)
Definition bad_text : State := setPgnInput "e2 e9" three_moves.

(** One move played on the board, then a game text typed in. *)
Definition played : State :=
  match makeMove (e1, (4, 1)%nat) initial with
  | Returns (_, st) => setPgnInput "e2 e3 d4" st
  | Throws => initial
  end.

Definition sample_analysis : Api.Analysis :=
  {| Api.evaluation := (3 # 10)%Q; Api.is_mate := false; Api.mate_in := 0;
     Api.best_move := JS.Str "e2e4" |}.

(** The best move arrives and the user asks for the arrow. *)
Definition with_arrow (st : State) : State :=
  arrows_effect (setShowBestMove true (setAnalysis (Some sample_analysis) st)).

End KingWalk.

(** ** What a run hands to the host and puts on the wire *)

Module Traffic.
Import JS Api.

(** The results passed to [onAnalysis], in the order of the calls. *)
Fixpoint handed (es : list Effect) : list Analysis :=
  match es with
  | [] => []
  | OnAnalysis analysis :: es' => analysis :: handed es'
  | _ :: es' => handed es'
  end.

(** The result an event carries to the object, if it carries one: a message
    that parses, or the answer to a request that is pending. *)
Definition result_of (e : Event) (w : World) : option Analysis :=
  match e with
  | Socket_message _ (Parses analysis) => Some analysis
  | Request_ends k (Answered result) =>
      match inflight w !! k with
      | Some _ => Some result
      | None => None
      end
  | _ => None
  end.

Fixpoint results (es : list Event) (w : World) : list Analysis :=
  match es with
  | [] => []
  | e :: es' =>
      match result_of e w with
      | Some analysis => analysis :: results es' (step e w)
      | None => results es' (step e w)
      end
  end.

(** The calls of [analyze] that pass its guard. *)
Definition asks (e : Event) : bool :=
  match e with
  | Call_analyze fen => truthy fen
  | _ => false
  end.

Fixpoint asked (es : list Event) : nat :=
  match es with
  | [] => 0
  | e :: es' => (if asks e then 1 else 0) + asked es'
  end.

(** A socket that is closing or closed. *)
Definition idle (s : ReadyState) : bool :=
  match s with
  | CLOSING | CLOSED => true
  | CONNECTING | OPEN => false
  end.

(** [this.ws] is the socket created last, and every socket created before
    it is closing or closed. *)
Definition single_channel (w : World) : Prop :=
  match ws (this w) with
  | None => sockets w = []
  | Some id =>
      length (sockets w) = S id /\
      forall j s, (j < id)%nat -> sockets w !! j = Some s -> idle s = true
  end.

(** The messages sent and the requests issued so far, together. *)
Definition traffic (w : World) : nat :=
  (count is_SocketSend w + count is_Fetch w)%nat.

(** A world with its [connected] field put to false. *)
Definition without_flag (w : World) : World := set_this (set_connected false) w.

(** Sockets created, timers pending and reconnection attempts left. *)
Definition budget (w : World) : Z :=
  Z.of_nat (length (sockets w)) + Z.of_nat (length (timers w))
  + (maxReconnectAttempts (this w) - reconnectAttempts (this w)).

End Traffic.

(** ** The review buttons, direct play and the move history text *)

Module Review.
Import JS Coach.

(** The four buttons of review mode. *)
Inductive Button : Type := First | Previous | Next | Last.





Section Component.
Context {engine : RulesEngine}.

(** The click handlers: [goToMove(0)], [goToPreviousMove], [goToNextMove],
    [goToMove(moves.length - 1)]. *)
Definition click (b : Button) (st : State) : Completion State :=
  match b with
  | First => goToMove 0 st
  | Previous => goToPreviousMove st
  | Next => goToNextMove st
  | Last => goToMove (Z.of_nat (length (moves st)) - 1) st
  end.

Definition press (b : Button) (st : State) : State := settle (click b st) st.

Fixpoint presses (bs : list Button) (st : State) : State :=
  match bs with
  | [] => st
  | b :: bs' => presses bs' (press b st)
  end.

(** The board shows the position reached by the moves up to the cursor. *)
Definition in_step (st : State) : Prop :=
  play (upto (currentMoveIndex st) (moves st)) new_Chess = Returns (game st).

(** A move tried on the board: the state after [makeMove]. *)
Definition try_move (m : Move) (st : State) : State :=
  match makeMove m st with
  | Returns (_, st') => st'
  | Throws => st
  end.

Fixpoint try_moves (ms : list Move) (st : State) : State :=
  match ms with
  | [] => st
  | m :: ms' => try_moves ms' (try_move m st)
  end.










End Component.

End Review.

(** ** The component and its analysis client together *)

Module Session.
Import JS Coach.

Section Component.
Context {engine : RulesEngine}.

Definition setIsAnalyzing (b : bool) (st : State) : State :=
  {| game := game st; moveHistory := moveHistory st; analysis := analysis st;
     isAnalyzing := b; arrows := arrows st;
     showBestMove := showBestMove st; currentMoveIndex := currentMoveIndex st;
     moves := moves st; isReviewMode := isReviewMode st;
     playerColor := playerColor st; pgnInput := pgnInput st;
     errorMessage := errorMessage st |}.

(** The callback the component gives to [new AnalysisWebSocket]. *)
Definition onAnalysis (analysis : Api.Analysis) (st : State) : State :=
  setIsAnalyzing false (setAnalysis (Some analysis) st).

(** The component state, its [ws] hook (set or still null), the client
    object in its world, and the requests that [requestAnalysis] made itself
    and is awaiting.  The console calls of the component are not kept. *)
Record App : Type := {
  ui : State;
  ws_set : bool;
  client : Api.World;
  awaited : list Api.HttpRequest
}.

(** The effect that creates the client: the object is built and connected
    at once, the [ws] hook is set by the render that follows. *)
Definition mounted (st : State) : App :=
  {| ui := st; ws_set := false; client := Api.connect Api.constructor;
     awaited := [] |}.

(** [requestAnalysis] up to its await.  With [ws] set the position goes to
    [ws.analyze]; without, [analyzePosition] is called and awaited here, so
    its request is kept in [awaited] and not among the requests of the
    client's fallback. *)
Definition requestAnalysis (app : App) : App :=
  let position := Str (fen (game (ui app))) in
  if ws_set app then
    {| ui := setIsAnalyzing true (ui app); ws_set := true;
       client := Api.analyze position (client app);
       awaited := awaited app |}
  else
    {| ui := setIsAnalyzing true (ui app); ws_set := false;
       client := Api.set_inflight (fun _ => Api.inflight (client app))
                   (Api.analyzePosition position None (client app));
       awaited := awaited app ++ [Api.request_of position None] |}.

(** The rest of [requestAnalysis] when the awaited request ends: a result is
    stored and the flag cleared; a failure, logged and thrown again by
    [analyzePosition], is caught and the flag cleared. *)
Definition request_settled (outcome : Api.HttpOutcome) (app : App) : App :=
  match outcome with
  | Api.Answered result =>
      {| ui := setIsAnalyzing false (setAnalysis (Some result) (ui app));
         ws_set := ws_set app;
         client := Api.emit (Api.Console (Api.LogReceivedHttp result)) (client app);
         awaited := awaited app |}
  | Api.NotOk _ | Api.Failed =>
      {| ui := setIsAnalyzing false (ui app);
         ws_set := ws_set app;
         client := Api.emit (Api.Console Api.ErrAnalyzing) (client app);
         awaited := awaited app |}
  end.

Inductive AppEvent : Type :=
| Request                                           (* requestAnalysis runs *)
| Ws_ready                                          (* the render after setWs *)
| Client (e : Api.Event)                            (* an event of the client *)
| Awaited_ends (k : nat) (outcome : Api.HttpOutcome).

(** An event of the client reaches the component through the callback, when
    it carries a result. *)
Definition app_step (e : AppEvent) (app : App) : App :=
  match e with
  | Request => requestAnalysis app
  | Ws_ready =>
      {| ui := ui app; ws_set := true; client := client app;
         awaited := awaited app |}
  | Client e =>
      {| ui := match Traffic.result_of e (client app) with
               | Some analysis => onAnalysis analysis (ui app)
               | None => ui app
               end;
         ws_set := ws_set app;
         client := Api.step e (client app);
         awaited := awaited app |}
  | Awaited_ends k outcome =>
      match awaited app !! k with
      | Some _ =>
          request_settled outcome
            {| ui := ui app; ws_set := ws_set app; client := client app;
               awaited := delete k (awaited app) |}
      | None => app
      end
  end.

Fixpoint app_run (es : list AppEvent) (app : App) : App :=
  match es with
  | [] => app
  | e :: es' => app_run es' (app_step e app)
  end.

(** The callback applied to results in turn. *)
Definition deliver (results : list Api.Analysis) (st : State) : State :=
  fold_left (fun st analysis => onAnalysis analysis st) results st.

End Component.

End Session.

(** ** The evaluation bar *)

Module Bar.

Section Numbers.
(** JavaScript numbers, as far as [getPercentage] uses them: literals, the
    comparison [a > b] and the three operations. *)
Variable number : Type.
Variable literal : Z -> number.
Variable gt : number -> number -> bool.
Variables add mul div : number -> number -> number.

(** [Math.max(a, b)] and [Math.min(a, b)] for a second argument that is a
    number. *)
Definition Math_max (a b : number) : number := if gt b a then b else a.
Definition Math_min (a b : number) : number := if gt a b then b else a.

Record Props : Type := {
  evaluation : number;
  isMate : bool;
  mateIn : number;
  isReviewMode : bool
}.

Definition getPercentage (props : Props) : number :=
  if isMate props then
    if gt (mateIn props) (literal 0) then literal 100 else literal 0
  else
    let maxEval := literal 10 in
    let percentage := add (literal 50) (mul (div (evaluation props) maxEval) (literal 50)) in
    Math_min (Math_max percentage (literal 0)) (literal 100).

End Numbers.

(** Rational numbers as an instance. *)
Definition Q_gt (a b : Q) : bool := if Qlt_le_dec b a then true else false.

Definition Q_getPercentage : Props Q -> Q :=
  getPercentage Q inject_Z Q_gt Qplus Qmult Qdiv.

End Bar.

(** ** More sample states *)

Module Samples.
Import JS Coach KingWalk Review Session.

(** The three-move game with the cursor on its second move. *)
Definition at_second_move : State := settle (goToMove 1 three_moves) three_moves.

(** A king move played on the board from there. *)
Definition f4 : Move := ((4, 2)%nat, (5, 3)%nat).

Definition after_f4 : State := try_move f4 at_second_move.

(** The component with its client, once the [ws] hook is set. *)
Definition running : App := app_step Ws_ready (mounted three_moves).

(** The connection fails and the fallback request of the question fails
    too. *)
Definition all_fails : list Api.Event :=
  [Api.Socket_close 0%nat; Api.Request_ends 0%nat Api.Failed].

(** The connection fails and the fallback request is answered. *)
Definition answered : list Api.Event :=
  [Api.Socket_close 0%nat; Api.Request_ends 0%nat (Api.Answered sample_analysis)].

End Samples.

(** * Properties of the analysis client *)

Section ApiFacts.
Import JS Api.

(** ** Bookkeeping on worlds *)

Lemma tally_app p (xs ys : list Effect) :
  tally p (xs ++ ys) = (tally p xs + tally p ys)%nat.
Proof.
  induction xs as [|x xs IH]; simpl; [reflexivity|].
  rewrite IH. lia.
Qed.

Lemma count_emit p e w :
  count p (emit e w) = (count p w + if p e then 1 else 0)%nat.
Proof.
  unfold count, emit; simpl. rewrite tally_app. simpl. lia.
Qed.

Lemma run_app es1 es2 w : run (es1 ++ es2) w = run es2 (run es1 w).
Proof.
  revert w. induction es1 as [|e es1 IH]; intros w; simpl; [reflexivity|].
  apply IH.
Qed.

(** [connect] leaves the counter, the limit and the pending timers alone and
    schedules nothing. *)
Lemma connect_frame w :
  reconnectAttempts (this (connect w)) = reconnectAttempts (this w) /\
  maxReconnectAttempts (this (connect w)) = maxReconnectAttempts (this w) /\
  timers (connect w) = timers w /\
  count is_SetTimeout (connect w) = count is_SetTimeout w.
Proof.
  unfold connect, new_WebSocket, socket_close.
  destruct (ws (this w)) as [id|]; simpl;
    repeat split; unfold count; simpl; rewrite ?tally_app; simpl; lia.
Qed.

Lemma fallbackToHttp_frame fen w :
  this (fallbackToHttp fen w) = this w /\
  timers (fallbackToHttp fen w) = timers w /\
  sockets (fallbackToHttp fen w) = sockets w /\
  count is_SetTimeout (fallbackToHttp fen w) = count is_SetTimeout w.
Proof.
  unfold fallbackToHttp, analyzePosition.
  destruct (falsy fen); simpl; repeat split;
    unfold count; simpl; rewrite ?tally_app; simpl; lia.
Qed.

Lemma analyze_frame fen w :
  this (analyze fen w) = this w /\
  timers (analyze fen w) = timers w /\
  sockets (analyze fen w) = sockets w /\
  count is_SetTimeout (analyze fen w) = count is_SetTimeout w.
Proof.
  unfold analyze.
  destruct (falsy fen) eqn:Hf; [repeat split|].
  destruct (channel_open _) eqn:Hopen.
  - unfold channel_open in Hopen; simpl in *.
    destruct (ws (this w)) as [id|]; [|discriminate].
    simpl; repeat split. unfold count; simpl. rewrite !tally_app; simpl; lia.
  - destruct (fallbackToHttp_frame fen (emit (Console (LogAnalyze fen)) w))
      as (Ht & Hti & Hs & Hc).
    rewrite Ht, Hti, Hs, Hc, count_emit. simpl. repeat split; lia.
Qed.

Lemma disconnect_frame w :
  reconnectAttempts (this (disconnect w)) = reconnectAttempts (this w) /\
  maxReconnectAttempts (this (disconnect w)) = maxReconnectAttempts (this w) /\
  ws (this (disconnect w)) = ws (this w) /\
  timers (disconnect w) = timers w /\
  inflight (disconnect w) = inflight w /\
  count is_SetTimeout (disconnect w) = count is_SetTimeout w.
Proof.
  unfold disconnect, socket_close.
  destruct (ws (this w)) as [id|] eqn:Hws; simpl; rewrite ?Hws; repeat split.
  unfold count; simpl. rewrite tally_app; simpl; lia.
Qed.

Lemma onclose_below w :
  reconnectAttempts (this w) < maxReconnectAttempts (this w) ->
  timers (onclose w) = timers w ++ [2000] /\
  reconnectAttempts (this (onclose w)) = reconnectAttempts (this w) + 1 /\
  maxReconnectAttempts (this (onclose w)) = maxReconnectAttempts (this w) /\
  count is_SetTimeout (onclose w) = S (count is_SetTimeout w).
Proof.
  intros Hlt. unfold onclose, tryReconnect; simpl.
  destruct (Z.ltb_spec (reconnectAttempts (this w)) (maxReconnectAttempts (this w)));
    [|lia].
  simpl. repeat split. unfold count; simpl. rewrite !tally_app; simpl. lia.
Qed.

Lemma onclose_exhausted w :
  ~ reconnectAttempts (this w) < maxReconnectAttempts (this w) ->
  timers (onclose w) = timers w /\
  reconnectAttempts (this (onclose w)) = reconnectAttempts (this w) /\
  maxReconnectAttempts (this (onclose w)) = maxReconnectAttempts (this w) /\
  count is_SetTimeout (onclose w) = count is_SetTimeout w.
Proof.
  intros Hge. unfold onclose, tryReconnect; simpl.
  destruct (Z.ltb_spec (reconnectAttempts (this w)) (maxReconnectAttempts (this w)));
    [lia|].
  simpl. repeat split. unfold count; simpl. rewrite !tally_app; simpl. lia.
Qed.

(** An event that is neither an open nor a closure changes neither the
    counter nor the number of timers ever scheduled. *)
Lemma step_other e w :
  is_open e = false -> is_close e = false ->
  reconnectAttempts (this (step e w)) = reconnectAttempts (this w) /\
  maxReconnectAttempts (this (step e w)) = maxReconnectAttempts (this w) /\
  count is_SetTimeout (step e w) = count is_SetTimeout w.
Proof.
  intros Ho Hc. destruct e as [|fen| |id|id data|id|id|k|k outcome];
    try discriminate; simpl.
  - destruct (connect_frame w) as (? & ? & ? & ?). auto.
  - destruct (analyze_frame fen w) as (Ht & _ & _ & ?). rewrite Ht. auto.
  - destruct (disconnect_frame w) as (? & ? & _ & _ & _ & ?). auto.
  - destruct data; simpl; repeat split;
      unfold count; simpl; rewrite !tally_app; simpl; lia.
  - repeat split. unfold count; simpl. rewrite ?tally_app; simpl; lia.
  - destruct (timers w !! k); [|auto].
    destruct (connect_frame (set_timers (delete k) w)) as (? & ? & ? & ?). auto.
  - destruct (inflight w !! k); [|auto].
    destruct outcome; simpl; repeat split;
      unfold count; simpl; rewrite !tally_app; simpl; lia.
Qed.

(** No event but an open lowers the counter. *)
Lemma step_keeps_counter e w :
  is_open e = false ->
  reconnectAttempts (this w) <= reconnectAttempts (this (step e w)).
Proof.
  intros Ho. destruct (is_close e) eqn:Hc.
  - destruct e; try discriminate. simpl.
    destruct (Z.lt_ge_cases (reconnectAttempts (this (mark id CLOSED w)))
                            (maxReconnectAttempts (this (mark id CLOSED w))))
      as [Hlt|Hge].
    + destruct (onclose_below _ Hlt) as (_ & Ha & _). rewrite Ha. simpl. lia.
    + destruct (onclose_exhausted (mark id CLOSED w)) as (_ & Ha & _); [lia|].
      rewrite Ha. simpl. lia.
  - destruct (step_other e w Ho Hc) as (Ha & _). lia.
Qed.

(** The limit is the constant of the constructor in every run. *)
Lemma step_limit e w :
  maxReconnectAttempts (this (step e w)) = maxReconnectAttempts (this w).
Proof.
  destruct (is_open e) eqn:Ho.
  - destruct e; try discriminate. reflexivity.
  - destruct (is_close e) eqn:Hc.
    + destruct e; try discriminate. simpl.
      unfold onclose, tryReconnect; simpl.
      destruct (_ <? _); reflexivity.
    + apply step_other; assumption.
Qed.

Lemma run_limit es w :
  maxReconnectAttempts (this (run es w)) = maxReconnectAttempts (this w).
Proof.
  revert w. induction es as [|e es IH]; intros w; simpl; [reflexivity|].
  rewrite IH. apply step_limit.
Qed.

(** Without an open in between, the counter climbs with the closures up to
    the limit, and one timer is scheduled for each climb. *)
Lemma run_closures es : forall w,
  no_open es = true ->
  0 <= reconnectAttempts (this w) <= maxReconnectAttempts (this w) ->
  reconnectAttempts (this (run es w)) =
    Z.min (maxReconnectAttempts (this w))
          (reconnectAttempts (this w) + Z.of_nat (closures es)) /\
  Z.of_nat (count is_SetTimeout (run es w)) =
    Z.of_nat (count is_SetTimeout w) +
    (reconnectAttempts (this (run es w)) - reconnectAttempts (this w)).
Proof.
  induction es as [|e es IH]; intros w Hno Hrange; simpl.
  - split; lia.
  - simpl in Hno. apply andb_true_iff in Hno as [He Hno].
    apply negb_true_iff in He.
    destruct (is_close e) eqn:Hc.
    + destruct e; try discriminate. simpl.
      set (w1 := mark id CLOSED w).
      assert (Hw1 : reconnectAttempts (this w1) = reconnectAttempts (this w) /\
                    maxReconnectAttempts (this w1) = maxReconnectAttempts (this w) /\
                    count is_SetTimeout w1 = count is_SetTimeout w)
        by (repeat split).
      destruct Hw1 as (Ha & Hm & Hcnt).
      destruct (Z.lt_ge_cases (reconnectAttempts (this w1)) (maxReconnectAttempts (this w1)))
        as [Hlt|Hge].
      * destruct (onclose_below w1 Hlt) as (_ & Ha' & Hm' & Hc').
        destruct (IH (onclose w1) Hno) as [IH1 IH2]; [lia|].
        rewrite IH1, Hm', Ha', Hm, Ha in *. split; [lia|].
        rewrite IH2, Hc', Hcnt. lia.
      * destruct (onclose_exhausted w1) as (_ & Ha' & Hm' & Hc'); [lia|].
        destruct (IH (onclose w1) Hno) as [IH1 IH2]; [lia|].
        rewrite IH1, Hm', Ha', Hm, Ha in *. split; [lia|].
        rewrite IH2, Hc', Hcnt. lia.
    + destruct (step_other e w He Hc) as (Ha & Hm & Hcnt).
      destruct (IH (step e w) Hno) as [IH1 IH2]; [lia|].
      rewrite IH1, Hm, Ha in *. split; [lia|].
      rewrite IH2, Hcnt. lia.
Qed.

(** ** [disconnect] *)

Lemma readyState_socket_close id other w :
  readyState other (socket_close id w) =
    if decide (other = id) then closing <$> readyState id w else readyState other w.
Proof.
  unfold readyState, socket_close; simpl.
  destruct (sockets w !! id) as [s|] eqn:Hs.
  - destruct (decide (other = id)) as [->|Hne].
    + simpl. apply list_lookup_insert_eq.
      eapply lookup_lt_Some; eassumption.
    + apply list_lookup_insert_ne. congruence.
  - destruct (decide (other = id)) as [->|Hne]; [rewrite Hs|]; reflexivity.
Qed.

(** C1 (as amended): [disconnect()] calls [close()] on the channel when there
    is one, which takes a connecting or open socket to closing, and sets
    [connected] to false; it cancels nothing: the pending reconnection
    timers, the pending requests, the reconnect counter and the [ws] field
    are as before, and without a channel the call changes nothing at all. *)
Theorem disconnect_closes_and_keeps_timers (w : World) :
  timers (disconnect w) = timers w /\
  inflight (disconnect w) = inflight w /\
  reconnectAttempts (this (disconnect w)) = reconnectAttempts (this w) /\
  maxReconnectAttempts (this (disconnect w)) = maxReconnectAttempts (this w) /\
  ws (this (disconnect w)) = ws (this w) /\
  match ws (this w) with
  | Some id =>
      connected (this (disconnect w)) = false /\
      effects (disconnect w) = effects w ++ [SocketClose id] /\
      readyState id (disconnect w) = closing <$> readyState id w /\
      (forall other, other <> id ->
         readyState other (disconnect w) = readyState other w)
  | None => disconnect w = w
  end.
Proof.
  destruct (disconnect_frame w) as (Ha & Hm & Hws & Ht & Hi & _).
  repeat (split; [assumption|]).
  unfold disconnect. destruct (ws (this w)) as [id|]; [|reflexivity].
  split; [reflexivity|]. split; [reflexivity|].
  assert (Hrs : forall other,
             readyState other (set_this (set_connected false) (socket_close id w))
             = readyState other (socket_close id w)) by reflexivity.
  split.
  - rewrite Hrs, readyState_socket_close.
    destruct (decide (id = id)); [reflexivity|congruence].
  - intros other Hne. rewrite Hrs, readyState_socket_close.
    destruct (decide (other = id)); [congruence|reflexivity].
Qed.

Lemma disconnect_closes_and_keeps_timers_witness :
  readyState 0%nat (disconnect after_open) = Some CLOSING /\
  connected (this (disconnect after_open)) = false /\
  timers (disconnect after_failed_connect) = [2000] /\
  disconnect constructor = constructor.
Proof.
  destruct (disconnect_closes_and_keeps_timers after_open)
    as (_ & _ & _ & _ & _ & Hopen).
  destruct (disconnect_closes_and_keeps_timers after_failed_connect)
    as (Htimers & _).
  destruct (disconnect_closes_and_keeps_timers constructor)
    as (_ & _ & _ & _ & _ & Hnone).
  change (ws (this after_open)) with (Some 0%nat) in Hopen.
  change (ws (this constructor)) with (@None nat) in Hnone.
  destruct Hopen as (Hconn & _ & Hstate & _).
  split; [exact Hstate|]. split; [exact Hconn|].
  split; [exact Htimers | exact Hnone].
Defined.

(** C1 (as stated) fails.  A timer scheduled by an earlier closure is still
    pending after [disconnect()], and when it fires [connect()] opens a new
    socket; and from the connected state, the closure that follows
    [disconnect()] schedules a timer of its own, which does the same.  In
    neither run does the host call [connect()] after [disconnect()]. *)
Lemma disconnect_does_not_stop_reconnection :
  (feasible [Call_connect; Socket_close 0%nat; Call_disconnect; Timer_fires 0%nat]
            constructor = true /\
   no_connect_call [Timer_fires 0%nat] = true /\
   timers after_failed_connect = [2000] /\
   timers (disconnect after_failed_connect) = [2000] /\
   timers (disconnect after_failed_connect) <> [] /\
   count is_NewWebSocket (disconnect after_failed_connect) = 1%nat /\
   count is_NewWebSocket (run [Timer_fires 0%nat] (disconnect after_failed_connect))
     = 2%nat /\
   readyState 1%nat (run [Timer_fires 0%nat] (disconnect after_failed_connect))
     = Some CONNECTING) /\
  (feasible [Call_connect; Socket_open 0%nat; Call_disconnect;
             Socket_close 0%nat; Timer_fires 0%nat] constructor = true /\
   no_connect_call [Socket_close 0%nat; Timer_fires 0%nat] = true /\
   timers (disconnect after_open) = [] /\
   readyState 0%nat (disconnect after_open) = Some CLOSING /\
   timers (run [Socket_close 0%nat] (disconnect after_open)) = [2000] /\
   count is_SetTimeout (run [Socket_close 0%nat] (disconnect after_open)) = 1%nat /\
   count is_NewWebSocket
     (run [Socket_close 0%nat; Timer_fires 0%nat] (disconnect after_open)) = 2%nat /\
   readyState 1%nat
     (run [Socket_close 0%nat; Timer_fires 0%nat] (disconnect after_open))
     = Some CONNECTING).
Proof. vm_compute. repeat split; solve [reflexivity | discriminate]. Qed.

(** ** Reconnection *)

(** Every run is a run to a point where the counter is zero, followed by
    events with no open among them. *)
Lemma run_decompose (es : list Event) :
  exists history rest,
    es = history ++ rest /\
    reconnectAttempts (this (run history constructor)) = 0 /\
    no_open rest = true.
Proof.
  induction es as [|e es IH] using rev_ind.
  - exists [], []. repeat split.
  - destruct IH as (history & rest & -> & Hzero & Hno).
    destruct (is_open e) eqn:He.
    + exists ((history ++ rest) ++ [e]), []. rewrite app_nil_r.
      split; [reflexivity|]. split; [|reflexivity].
      rewrite run_app. destruct e; try discriminate. reflexivity.
    + exists history, (rest ++ [e]). rewrite app_assoc.
      split; [reflexivity|]. split; [exact Hzero|].
      unfold no_open in *. rewrite forallb_app, Hno. simpl. rewrite He.
      reflexivity.
Qed.

(** C2: in every run, starting where the counter is zero (a new object, or
    just after a successful open) and going on through events [es] with no
    open among them, the limit is the constant 5, the counter equals the
    number of closures capped at 5, and exactly that many timers were
    scheduled; the next closure schedules one more timer of 2000 ms and
    increments the counter if and only if the counter is below 5; a timer
    that fires calls [connect()]; an open puts the counter back to zero and
    no other event lowers it.  So from the fifth closure on, no closure
    schedules a timer. *)
Theorem reconnection_bounded (history es : list Event) :
  reconnectAttempts (this (run history constructor)) = 0 ->
  no_open es = true ->
  let w0 := run history constructor in
  let w := run es w0 in
  maxReconnectAttempts (this w) = 5 /\
  reconnectAttempts (this w) = Z.of_nat (Nat.min 5 (closures es)) /\
  count is_SetTimeout w = (count is_SetTimeout w0 + Nat.min 5 (closures es))%nat /\
  (reconnectAttempts (this w) < 5 ->
     timers (onclose w) = timers w ++ [2000] /\
     reconnectAttempts (this (onclose w)) = reconnectAttempts (this w) + 1 /\
     count is_SetTimeout (onclose w) = S (count is_SetTimeout w)) /\
  (~ reconnectAttempts (this w) < 5 ->
     timers (onclose w) = timers w /\
     reconnectAttempts (this (onclose w)) = reconnectAttempts (this w) /\
     count is_SetTimeout (onclose w) = count is_SetTimeout w) /\
  ((5 <= closures es)%nat ->
     forall id, timers (step (Socket_close id) w) = timers w /\
                count is_SetTimeout (step (Socket_close id) w) = count is_SetTimeout w) /\
  (forall k delay, timers w !! k = Some delay ->
     step (Timer_fires k) w = connect (set_timers (delete k) w)) /\
  (forall id, reconnectAttempts (this (step (Socket_open id) w)) = 0) /\
  (forall e, is_open e = false ->
     reconnectAttempts (this w) <= reconnectAttempts (this (step e w))).
Proof.
  intros Hzero Hno w0 w.
  assert (Hmax0 : maxReconnectAttempts (this w0) = 5)
    by (unfold w0; rewrite run_limit; reflexivity).
  assert (Hmax : maxReconnectAttempts (this w) = 5)
    by (unfold w; rewrite run_limit; exact Hmax0).
  destruct (run_closures es w0 Hno) as [Hcnt Hsched];
    [fold w0 in Hzero; lia|].
  fold w in Hcnt, Hsched. fold w0 in Hzero. rewrite Hmax0, Hzero in Hcnt.
  assert (Hatt : reconnectAttempts (this w) = Z.of_nat (Nat.min 5 (closures es)))
    by lia.
  split; [exact Hmax|]. split; [exact Hatt|]. split; [lia|].
  split.
  { intros Hlt. destruct (onclose_below w) as (? & ? & _ & ?); [lia|]. auto. }
  split.
  { intros Hge. destruct (onclose_exhausted w) as (? & ? & _ & ?); [lia|]. auto. }
  split.
  { intros Hfive id. simpl.
    destruct (onclose_exhausted (mark id CLOSED w)) as (Ht & _ & _ & Hc).
    - simpl. lia.
    - split; [exact Ht | exact Hc]. }
  split.
  { intros k delay Hk. simpl. rewrite Hk. reflexivity. }
  split; [intros id; reflexivity|].
  intros e He. apply step_keeps_counter. exact He.
Qed.

Lemma reconnection_bounded_witness :
  feasible ([Call_connect; Socket_open 0%nat] ++ six_failures) constructor = true /\
  count is_SetTimeout (run six_failures after_open) = 5%nat /\
  timers (run six_failures after_open) = [] /\
  timers (step (Socket_close 6%nat) (run six_failures after_open)) = [].
Proof.
  destruct (reconnection_bounded [Call_connect; Socket_open 0%nat] six_failures
              eq_refl eq_refl)
    as (_ & _ & Hcount & _ & _ & Hfive & _).
  split; [reflexivity|]. split; [exact Hcount|]. split; [reflexivity|].
  destruct (Hfive ltac:(vm_compute; lia) 6%nat) as [Ht _].
  etransitivity; [exact Ht | reflexivity].
Defined.

(** ** [analyze] *)

Lemma truthy_not_falsy position :
  position <> EmptyString -> falsy (Str position) = false.
Proof. destruct position; [congruence|reflexivity]. Qed.

Lemma analyze_open position w :
  position <> EmptyString -> channel_open w = true ->
  exists id,
    ws (this w) = Some id /\ readyState id w = Some OPEN /\
    analyze (Str position) w =
      emit (SocketSend id (stringify (channel_message (Str position))))
           (emit (Console (LogAnalyze (Str position))) w).
Proof.
  intros Hne Hopen. unfold analyze.
  rewrite (truthy_not_falsy position Hne).
  change (channel_open (emit (Console (LogAnalyze (Str position))) w))
    with (channel_open w).
  rewrite Hopen. unfold channel_open in Hopen.
  destruct (ws (this w)) as [id|] eqn:Hws; [|discriminate].
  apply bool_decide_eq_true in Hopen.
  exists id. simpl. rewrite Hws. repeat split. exact Hopen.
Qed.

Lemma analyze_fallback position w :
  position <> EmptyString -> channel_open w = false ->
  analyze (Str position) w =
    analyzePosition (Str position) None
                    (emit (Console (LogAnalyze (Str position))) w).
Proof.
  intros Hne Hopen. unfold analyze, fallbackToHttp.
  rewrite (truthy_not_falsy position Hne).
  change (channel_open (emit (Console (LogAnalyze (Str position))) w))
    with (channel_open w).
  rewrite Hopen. reflexivity.
Qed.

(** C3: for a non-empty position string, [analyze] with an open channel
    logs, sends the one serialized message on that channel and issues no
    request; with the channel in any other state (or absent) it issues the
    fallback request and sends nothing, and the answer to that request is
    handed to [onAnalysis] exactly as a channel message is. *)
Theorem analyze_routing (position : string) (w : World) :
  position <> EmptyString ->
  (channel_open w = true ->
     exists id,
       ws (this w) = Some id /\ readyState id w = Some OPEN /\
       analyze (Str position) w =
         emit (SocketSend id (stringify (channel_message (Str position))))
              (emit (Console (LogAnalyze (Str position))) w) /\
       count is_SocketSend (analyze (Str position) w) = S (count is_SocketSend w) /\
       count is_Fetch (analyze (Str position) w) = count is_Fetch w /\
       inflight (analyze (Str position) w) = inflight w) /\
  (channel_open w = false ->
     analyze (Str position) w =
       analyzePosition (Str position) None
                       (emit (Console (LogAnalyze (Str position))) w) /\
     count is_Fetch (analyze (Str position) w) = S (count is_Fetch w) /\
     count is_SocketSend (analyze (Str position) w) = count is_SocketSend w /\
     inflight (analyze (Str position) w) =
       inflight w ++ [request_of (Str position) None] /\
     forall result,
       effects (step (Request_ends (length (inflight w)) (Answered result))
                     (analyze (Str position) w)) =
         effects (analyze (Str position) w) ++
           [Console (LogReceivedHttp result); OnAnalysis result] /\
       forall id w',
         effects (step (Socket_message id (Parses result)) w') =
           effects w' ++ [Console (LogReceived result); OnAnalysis result]).
Proof.
  intros Hne. split; intros Hopen.
  - destruct (analyze_open position w Hne Hopen) as (id & Hws & Hrs & Heq).
    exists id. rewrite Heq.
    repeat split; try assumption;
      unfold count; simpl; rewrite !tally_app; simpl; lia.
  - rewrite (analyze_fallback position w Hne Hopen).
    split; [reflexivity|].
    split; [unfold count; simpl; rewrite !tally_app; simpl; lia|].
    split; [unfold count; simpl; rewrite !tally_app; simpl; lia|].
    split; [reflexivity|].
    intros result. split; [|intros id w'; simpl; rewrite <- app_assoc; reflexivity].
    simpl. rewrite list_lookup_middle by reflexivity.
    simpl. rewrite <- !app_assoc. reflexivity.
Qed.

Lemma analyze_routing_witness :
  channel_open after_open = true /\
  effects (analyze (Str START_FEN) after_open) =
    effects after_open ++
      [Console (LogAnalyze (Str START_FEN));
       SocketSend 0%nat (stringify (channel_message (Str START_FEN)))] /\
  channel_open after_failed_connect = false /\
  count is_Fetch (analyze (Str START_FEN) after_failed_connect) = 1%nat /\
  count is_SocketSend (analyze (Str START_FEN) after_failed_connect) = 0%nat.
Proof.
  assert (Hne : START_FEN <> EmptyString) by discriminate.
  destruct (analyze_routing START_FEN after_open Hne) as [Hopen _].
  destruct (analyze_routing START_FEN after_failed_connect Hne) as [_ Hother].
  destruct (Hopen eq_refl) as (id & Hws & _ & Heq & _).
  destruct (Hother eq_refl) as (_ & Hfetch & Hsend & _).
  split; [reflexivity|].
  split.
  { rewrite Heq. injection Hws as <-. reflexivity. }
  split; [reflexivity|].
  split; [exact Hfetch | exact Hsend].
Defined.

(** C9: for a falsy position (absent, null or the empty string) [analyze]
    and [fallbackToHttp] return the world they were given: nothing is sent,
    requested, logged or handed to [onAnalysis], and no field changes. *)
Theorem falsy_position_noop (fen : Value) (w : World) :
  falsy fen = true ->
  analyze fen w = w /\ fallbackToHttp fen w = w.
Proof.
  intros Hf. unfold analyze, fallbackToHttp. rewrite Hf. split; reflexivity.
Qed.

Lemma falsy_position_noop_witness :
  (analyze Undefined after_open = after_open /\
   fallbackToHttp Undefined after_open = after_open) /\
  (analyze Null after_open = after_open /\
   fallbackToHttp Null after_open = after_open) /\
  (analyze (Str EmptyString) after_failed_connect = after_failed_connect /\
   fallbackToHttp (Str EmptyString) after_failed_connect = after_failed_connect).
Proof.
  split; [|split].
  - apply (falsy_position_noop Undefined after_open). reflexivity.
  - apply (falsy_position_noop Null after_open). reflexivity.
  - apply (falsy_position_noop (Str EmptyString) after_failed_connect). reflexivity.
Defined.

(** ** The two wire formats *)

Lemma append_assoc (a b c : string) : (a +:+ b) +:+ c = a +:+ (b +:+ c).
Proof.
  induction a as [|x a IH]; [reflexivity|].
  change (String x ((a +:+ b) +:+ c) = String x (a +:+ (b +:+ c))).
  rewrite IH. reflexivity.
Qed.

(** C4 (as amended): the message that [analyze] sends on the channel is the
    JSON object whose only member is the position under the key [fen], with
    no depth; the request of the fallback path has the members [fen] and
    [depth], in this order, and the depth is 20 unless [analyzePosition] is
    given another. *)
Theorem wire_format (position : string) (w : World) :
  position <> EmptyString ->
  (channel_open w = true ->
     exists id,
       effects (analyze (Str position) w) =
         effects w ++
           [Console (LogAnalyze (Str position));
            SocketSend id (stringify (JObject [("fen", JString position)]))]) /\
  keys (channel_message (Str position)) = ["fen"] /\
  stringify (JObject [("fen", JString position)]) =
    ("{" +:+ dquote +:+ "fen" +:+ dquote +:+ ":") +:+ quote position +:+ "}" /\
  (channel_open w = false ->
     effects (analyze (Str position) w) =
       effects w ++
         [Console (LogAnalyze (Str position));
          Console (LogSendingHttp (Str position));
          Fetch {| url := "http://localhost:8000/analyze";
                   method := "POST";
                   content_type := "application/json";
                   body := stringify (JObject [("fen", JString position);
                                               ("depth", JNumber 20)]) |}]) /\
  keys (request_body (Str position) 20) = ["fen"; "depth"] /\
  stringify (JObject [("fen", JString position); ("depth", JNumber 20)]) =
    ("{" +:+ dquote +:+ "fen" +:+ dquote +:+ ":") +:+ quote position +:+
    ("," +:+ dquote +:+ "depth" +:+ dquote +:+ ":20}") /\
  (forall depth,
     body (request_of (Str position) (Some depth)) =
       stringify (JObject [("fen", JString position); ("depth", JNumber depth)])).
Proof.
  intros Hne. split.
  { intros H. destruct (analyze_open position w Hne H) as (id & _ & _ & Heq).
    exists id. rewrite Heq. simpl. rewrite <- app_assoc. reflexivity. }
  split; [reflexivity|]. split; [reflexivity|].
  split.
  { intros H. rewrite (analyze_fallback position w Hne H).
    simpl. rewrite <- !app_assoc. reflexivity. }
  split; [reflexivity|]. split; [|reflexivity].
  cbn [stringify]. rewrite !append_assoc. reflexivity.
Qed.

Lemma wire_format_witness :
  (exists id,
     effects (analyze (Str START_FEN) after_open) =
       effects after_open ++
         [Console (LogAnalyze (Str START_FEN));
          SocketSend id (stringify (JObject [("fen", JString START_FEN)]))]) /\
  body (request_of (Str START_FEN) None) =
    stringify (JObject [("fen", JString START_FEN); ("depth", JNumber 20)]).
Proof.
  assert (Hne : START_FEN <> EmptyString) by discriminate.
  destruct (wire_format START_FEN after_open Hne) as (Hsend & _).
  split; [exact (Hsend eq_refl) | reflexivity].
Defined.

(** C4 (as stated) fails on the key: with the channel open, the message sent
    for the starting position has the member [fen]; the object with the
    member [position] is a different text and is not sent. *)
Lemma channel_key_is_not_position :
  channel_open after_open = true /\
  effects (analyze (Str START_FEN) after_open) =
    effects after_open ++
      [Console (LogAnalyze (Str START_FEN));
       SocketSend 0%nat (stringify (JObject [("fen", JString START_FEN)]))] /\
  stringify (JObject [("fen", JString START_FEN)]) <>
    stringify (JObject [("position", JString START_FEN)]) /\
  keys (channel_message (Str START_FEN)) <> ["position"] /\
  ~ In (SocketSend 0%nat (stringify (JObject [("position", JString START_FEN)])))
       (effects (analyze (Str START_FEN) after_open)).
Proof.
  split; [reflexivity|]. split; [reflexivity|].
  split; [vm_compute; discriminate|]. split; [vm_compute; discriminate|].
  vm_compute. intros H.
  repeat (destruct H as [H|H]; [discriminate H|]). exact H.
Qed.

End ApiFacts.

(** * Properties of the navigation code *)

Section CoachFacts.
Import JS Coach.
Context {engine : RulesEngine}.

(** ** The replay loop *)

(** The loop entered at [i] plays the next [index - i + 1] moves, as far as
    there are any. *)
Lemma replay_play (rest : list Move) : forall i index newGame,
  replay i rest index newGame =
    play (firstn (Z.to_nat (index - i + 1)) rest) newGame.
Proof.
  induction rest as [|m rest IH]; intros i index newGame.
  - rewrite firstn_nil. reflexivity.
  - cbn [replay]. destruct (Z.leb_spec i index) as [Hle|Hgt].
    + replace (Z.to_nat (index - i + 1)) with (S (Z.to_nat (index - (i + 1) + 1)))
        by lia.
      cbn [firstn play].
      destruct (move newGame m) as [after result| |]; auto.
    + replace (Z.to_nat (index - i + 1)) with 0%nat by lia.
      reflexivity.
Qed.

Lemma goToMove_play index st :
  goToMove index st =
    match play (upto index (moves st)) new_Chess with
    | Returns position =>
        Returns (setShowBestMove false
                   (setCurrentMoveIndex index (setGame position st)))
    | Throws => Throws
    end.
Proof.
  unfold goToMove, upto. rewrite replay_play.
  replace (index - 0 + 1) with (index + 1) by lia.
  reflexivity.
Qed.

Lemma goToMove_returns index st st' :
  goToMove index st = Returns st' ->
  exists position,
    play (upto index (moves st)) new_Chess = Returns position /\
    st' = setShowBestMove false (setCurrentMoveIndex index (setGame position st)).
Proof.
  rewrite goToMove_play.
  destruct (play _ _) as [position|]; [|discriminate].
  intros [= <-]. exists position. split; reflexivity.
Qed.

Lemma upto_length index (ms : list Move) :
  -1 <= index < Z.of_nat (length ms) ->
  length (upto index ms) = Z.to_nat (index + 1).
Proof.
  intros H. unfold upto. rewrite length_firstn. lia.
Qed.

Lemma upto_all index (ms : list Move) :
  Z.of_nat (length ms) - 1 <= index -> upto index ms = ms.
Proof.
  intros H. unfold upto. apply firstn_all2. lia.
Qed.

Lemma upto_none index (ms : list Move) : index < 0 -> upto index ms = [].
Proof.
  intros H. unfold upto. replace (Z.to_nat (index + 1)) with 0%nat by lia.
  reflexivity.
Qed.

(** ** [goToMove] *)

(** C7: [goToMove(i)] sets the board to the result of playing the moves
    [0 .. i] from the position of [new Chess()], whatever the cursor and the
    board were before; so a second [goToMove(i)] returns the state the first
    one returned, and the component state after the two calls is the state
    after one.  For [i] within the bounds the moves played are the first
    [i + 1] of the list. *)
Theorem goToMove_idempotent (index : Z) (st : State) :
  goToMove index st =
    match play (upto index (moves st)) new_Chess with
    | Returns position =>
        Returns (setShowBestMove false
                   (setCurrentMoveIndex index (setGame position st)))
    | Throws => Throws
    end /\
  (forall st', goToMove index st = Returns st' ->
     goToMove index st' = Returns st' /\
     play (upto index (moves st)) new_Chess = Returns (game st')) /\
  settle (goToMove index (settle (goToMove index st) st))
         (settle (goToMove index st) st)
    = settle (goToMove index st) st /\
  (forall cursor board,
     match goToMove index st,
           goToMove index (setCurrentMoveIndex cursor (setGame board st)) with
     | Returns a, Returns b => game a = game b /\ fen (game a) = fen (game b)
     | Throws, Throws => True
     | _, _ => False
     end) /\
  (-1 <= index < Z.of_nat (length (moves st)) ->
     length (upto index (moves st)) = Z.to_nat (index + 1)).
Proof.
  split; [apply goToMove_play|].
  assert (Hagain : forall st', goToMove index st = Returns st' ->
                     goToMove index st' = Returns st' /\
                     play (upto index (moves st)) new_Chess = Returns (game st')).
  { intros st' H. destruct (goToMove_returns _ _ _ H) as (position & Hplay & ->).
    split; [|exact Hplay].
    rewrite goToMove_play. cbn [moves setShowBestMove setCurrentMoveIndex setGame].
    rewrite Hplay. reflexivity. }
  split; [exact Hagain|]. split.
  - destruct (goToMove index st) as [st'|] eqn:H1; cbn [settle].
    + destruct (Hagain st' eq_refl) as [-> _]. reflexivity.
    + rewrite H1. reflexivity.
  - split; [|apply upto_length].
    intros cursor board. rewrite !goToMove_play.
    cbn [moves setCurrentMoveIndex setGame].
    destruct (play _ _); [split; reflexivity | exact I].
Qed.

(** ** The cursor *)

(** C6 (as amended): [goToMove(i)] stores [i] itself as the cursor, for any
    integer [i]; only the replay is bounded by the list, so a call that
    returns leaves the cursor within [-1 <= cursor < length] exactly when
    [i] is, while the board is the replay of the whole list for [i] at or
    past the last index and the starting position for negative [i].
    [goToNextMove] and [goToPreviousMove] keep the cursor within the bounds
    and do nothing at the last index and at 0.  A successful [loadGame]
    sets the cursor to 0, within the bounds exactly when the loaded list is
    not empty; a failed one leaves cursor and list as they were. *)
Theorem cursor_after_navigation (st : State) :
  (forall index st', goToMove index st = Returns st' ->
     currentMoveIndex st' = index /\
     moves st' = moves st /\
     (cursor_in_bounds st' <-> -1 <= index < Z.of_nat (length (moves st))) /\
     play (upto index (moves st)) new_Chess = Returns (game st') /\
     (Z.of_nat (length (moves st)) - 1 <= index ->
        play (moves st) new_Chess = Returns (game st')) /\
     (index < 0 -> game st' = new_Chess)) /\
  (cursor_in_bounds st ->
     cursor_in_bounds (settle (goToNextMove st) st) /\
     cursor_in_bounds (settle (goToPreviousMove st) st)) /\
  (Z.of_nat (length (moves st)) - 1 <= currentMoveIndex st ->
     goToNextMove st = Returns st) /\
  (currentMoveIndex st <= 0 -> goToPreviousMove st = Returns st) /\
  (forall history, loadPgn (pgnInput st) = Returns history ->
     currentMoveIndex (loadGame st) = 0 /\
     moves (loadGame st) = history /\
     (cursor_in_bounds (loadGame st) <-> history <> [])) /\
  (loadPgn (pgnInput st) = Throws ->
     currentMoveIndex (loadGame st) = currentMoveIndex st /\
     moves (loadGame st) = moves st).
Proof.
  assert (Hgo : forall index st', goToMove index st = Returns st' ->
                  currentMoveIndex st' = index /\ moves st' = moves st /\
                  play (upto index (moves st)) new_Chess = Returns (game st')).
  { intros index st' H.
    destruct (goToMove_returns _ _ _ H) as (position & Hplay & ->).
    repeat split. exact Hplay. }
  split.
  { intros index st' H. destruct (Hgo index st' H) as (Hc & Hm & Hplay).
    split; [exact Hc|]. split; [exact Hm|].
    split; [unfold cursor_in_bounds; rewrite Hc, Hm; reflexivity|].
    split; [exact Hplay|]. split.
    - intros Hlast. rewrite upto_all in Hplay by exact Hlast. exact Hplay.
    - intros Hneg. rewrite upto_none in Hplay by exact Hneg.
      cbn [play] in Hplay. congruence. }
  split.
  { intros [Hlo Hhi]. split.
    - unfold goToNextMove.
      destruct (Z.ltb_spec (currentMoveIndex st) (Z.of_nat (length (moves st)) - 1))
        as [Hlt|Hge]; [|split; assumption].
      destruct (goToMove (currentMoveIndex st + 1) st) as [st'|] eqn:H;
        cbn [settle]; [|split; assumption].
      destruct (Hgo _ _ H) as (Hc & Hm & _).
      unfold cursor_in_bounds. rewrite Hc, Hm. lia.
    - unfold goToPreviousMove.
      destruct (Z.gtb_spec (currentMoveIndex st) 0) as [Hgt|Hle];
        [|split; assumption].
      destruct (goToMove (currentMoveIndex st - 1) st) as [st'|] eqn:H;
        cbn [settle]; [|split; assumption].
      destruct (Hgo _ _ H) as (Hc & Hm & _).
      unfold cursor_in_bounds. rewrite Hc, Hm. lia. }
  split.
  { intros Hlast. unfold goToNextMove.
    destruct (Z.ltb_spec (currentMoveIndex st) (Z.of_nat (length (moves st)) - 1))
      as [Hlt|Hge]; [lia|reflexivity]. }
  split.
  { intros Hfirst. unfold goToPreviousMove.
    destruct (Z.gtb_spec (currentMoveIndex st) 0) as [Hgt|Hle]; [lia|reflexivity]. }
  split.
  { intros history H. unfold loadGame. rewrite H.
    split; [reflexivity|]. split; [reflexivity|].
    unfold cursor_in_bounds; cbn.
    destruct history as [|m history]; cbn; split; intros; try congruence; lia. }
  intros H. unfold loadGame. rewrite H. split; reflexivity.
Qed.

(** ** [loadGame] *)

(** C5 (as amended): when [loadPgn] throws on the text, [loadGame] sets the
    error message and nothing else, so the move list, the cursor, the board
    and the move history are as before; when it succeeds, [loadGame] sets
    the cursor to 0, the board to the starting position, the move list to
    the parsed moves and the move history to their notations, whatever the
    move history held before, switches review mode on and clears the error
    message. *)
Theorem loadGame_outcome (st : State) :
  (loadPgn (pgnInput st) = Throws ->
     loadGame st = setErrorMessage INVALID_PGN st /\
     moves (loadGame st) = moves st /\
     currentMoveIndex (loadGame st) = currentMoveIndex st /\
     game (loadGame st) = game st /\
     moveHistory (loadGame st) = moveHistory st /\
     errorMessage (loadGame st) = INVALID_PGN) /\
  (forall history, loadPgn (pgnInput st) = Returns history ->
     currentMoveIndex (loadGame st) = 0 /\
     game (loadGame st) = new_Chess /\
     moves (loadGame st) = history /\
     moveHistory (loadGame st) = map san history /\
     isReviewMode (loadGame st) = true /\
     errorMessage (loadGame st) = EmptyString).
Proof.
  unfold loadGame. split.
  - intros ->. repeat split.
  - intros history ->. repeat split.
Qed.

(** Direct play: a move that is played moves the board, adds its notation
    to the move history and hides the best move; a refused one changes
    nothing. *)
Lemma makeMove_outcome (m : Move) (st : State) (ok : bool) (st' : State) :
  makeMove m st = Returns (ok, st') ->
  if ok
  then exists gameCopy result,
         Chess_of_fen (fen (game st)) = Returns gameCopy /\
         move gameCopy m = Moved (game st') result /\
         moveHistory st' = moveHistory st ++ [san result] /\
         showBestMove st' = false /\
         currentMoveIndex st' = currentMoveIndex st /\ moves st' = moves st
  else st' = st.
Proof.
  unfold makeMove.
  destruct (Chess_of_fen (fen (game st))) as [gameCopy|]; [|discriminate].
  destruct (move gameCopy m) as [after result| |] eqn:Hmove; intros [= <- <-].
  - exists gameCopy, result. repeat split. exact Hmove.
  - reflexivity.
  - reflexivity.
Qed.

Lemma resetGame_outcome (st : State) :
  game (resetGame st) = new_Chess /\ moveHistory (resetGame st) = [] /\
  showBestMove (resetGame st) = false /\
  currentMoveIndex (resetGame st) = currentMoveIndex st /\
  moves (resetGame st) = moves st.
Proof. repeat split. Qed.

(** ** The arrow of the best move *)

Lemma JS_substring_within a b s :
  0 <= a <= b -> b <= Z.of_nat (String.length s) ->
  JS.substring a b s = String.substring (Z.to_nat a) (Z.to_nat (b - a)) s.
Proof.
  intros Hab Hb. unfold JS.substring, clamp.
  rewrite (Z.min_l a), (Z.min_l b), (Z.max_r 0 a), (Z.max_r 0 b) by lia.
  rewrite Z.min_l, Z.max_r by lia. reflexivity.
Qed.

(** C8: for every string of at least four characters, [bestMoveToArrow]
    returns exactly one arrow, from the square spelled by the first two
    characters to the square spelled by the next two; the four castling
    strings give the king's squares, which is the same pair; [e1g1] gives
    (e1, g1) and [e2e4] gives (e2, e4); null, undefined and strings of
    fewer than four characters give no arrow. *)
Theorem bestMoveToArrow_pair (s : string) :
  (4 <= String.length s)%nat ->
  bestMoveToArrow (Str s) =
    [(String.substring 0 2 s, String.substring 2 2 s, ARROW_COLOUR)] /\
  (forall a b c d rest,
     s = String a (String b (String c (String d rest))) ->
     bestMoveToArrow (Str s) =
       [(String a (String b EmptyString), String c (String d EmptyString),
         ARROW_COLOUR)]) /\
  bestMoveToArrow (Str "e1g1") = [("e1", "g1", ARROW_COLOUR)] /\
  bestMoveToArrow (Str "e1c1") = [("e1", "c1", ARROW_COLOUR)] /\
  bestMoveToArrow (Str "e8g8") = [("e8", "g8", ARROW_COLOUR)] /\
  bestMoveToArrow (Str "e8c8") = [("e8", "c8", ARROW_COLOUR)] /\
  bestMoveToArrow (Str "e2e4") = [("e2", "e4", ARROW_COLOUR)] /\
  bestMoveToArrow Null = [] /\
  bestMoveToArrow Undefined = [] /\
  (forall short, (String.length short < 4)%nat -> bestMoveToArrow (Str short) = []).
Proof.
  intros Hlen.
  assert (Hgen : bestMoveToArrow (Str s) =
                 [(String.substring 0 2 s, String.substring 2 2 s, ARROW_COLOUR)]).
  { unfold bestMoveToArrow.
    assert (Hf : falsy (Str s) = false) by (destruct s; [simpl in Hlen; lia|reflexivity]).
    rewrite Hf. cbn [orb].
    destruct (Z.ltb_spec (Z.of_nat (String.length s)) 4) as [Hlt|_]; [lia|].
    destruct (String.eqb s "e1g1") eqn:E1;
      [apply String.eqb_eq in E1; subst s; reflexivity|].
    destruct (String.eqb s "e1c1") eqn:E2;
      [apply String.eqb_eq in E2; subst s; reflexivity|].
    destruct (String.eqb s "e8g8") eqn:E3;
      [apply String.eqb_eq in E3; subst s; reflexivity|].
    destruct (String.eqb s "e8c8") eqn:E4;
      [apply String.eqb_eq in E4; subst s; reflexivity|].
    rewrite !JS_substring_within by lia. reflexivity. }
  split; [exact Hgen|]. split.
  { intros a b c d rest ->. rewrite Hgen. cbn [String.substring].
    destruct rest; reflexivity. }
  repeat (split; [reflexivity|]).
  intros short Hshort. unfold bestMoveToArrow.
  destruct (Z.ltb_spec (Z.of_nat (String.length short)) 4) as [_|Hge]; [|lia].
  rewrite orb_true_r. reflexivity.
Qed.

(** ** Hiding the best move *)

(** C10 (as amended): every call of [goToMove] that returns, for any index,
    has set [showBestMove] to false, after which the arrows effect clears
    the arrows; the call returns exactly when the replay of the moves up to
    the index raises no exception (always, for a negative index), and a call
    that throws has set nothing. *)
Theorem goToMove_hides_best_move (index : Z) (st st' : State) :
  goToMove index st = Returns st' ->
  showBestMove st' = false /\
  arrows (arrows_effect st') = [] /\
  showBestMove (arrows_effect st') = false /\
  (forall i, (exists st1, goToMove i st = Returns st1) <->
             (exists position, play (upto i (moves st)) new_Chess = Returns position)) /\
  (forall i, i < 0 -> exists st1, goToMove i st = Returns st1) /\
  (forall i, goToMove i st = Throws -> settle (goToMove i st) st = st).
Proof.
  intros H. destruct (goToMove_returns _ _ _ H) as (position & _ & ->).
  split; [reflexivity|].
  split.
  { unfold arrows_effect. cbn. destruct (analysis st); reflexivity. }
  split.
  { unfold arrows_effect. cbn. destruct (analysis st); reflexivity. }
  split.
  { intros i. rewrite goToMove_play. split.
    - intros [st1 H1]. destruct (play _ _) as [p|]; [eauto|discriminate].
    - intros [p ->]. eauto. }
  split.
  { intros i Hi. rewrite goToMove_play, upto_none by exact Hi.
    cbn [play]. eauto. }
  intros i ->. reflexivity.
Qed.

End CoachFacts.

(** * The navigation code on the miniature engine *)

Section Examples.
Import JS Coach KingWalk.

Lemma goToMove_idempotent_witness :
  goToMove 1 (settle (goToMove 1 three_moves) three_moves)
    = Returns (settle (goToMove 1 three_moves) three_moves) /\
  fen (game (settle (goToMove 1 three_moves) three_moves)) = "e3" /\
  length (upto 1 (moves three_moves)) = 2%nat.
Proof.
  destruct (goToMove_idempotent 1 three_moves) as (_ & Hagain & _ & _ & Hlen).
  split; [|split].
  - apply (Hagain (settle (goToMove 1 three_moves) three_moves)). reflexivity.
  - reflexivity.
  - apply Hlen. vm_compute. split; [discriminate|reflexivity].
Defined.

Lemma cursor_after_navigation_witness :
  cursor_in_bounds (settle (goToMove 2 three_moves) three_moves) /\
  cursor_in_bounds (settle (goToNextMove three_moves) three_moves) /\
  cursor_in_bounds (settle (goToPreviousMove three_moves) three_moves) /\
  cursor_in_bounds three_moves /\
  currentMoveIndex (loadGame bad_text) = currentMoveIndex bad_text.
Proof.
  assert (Hin : cursor_in_bounds three_moves)
    by (vm_compute; split; [discriminate|reflexivity]).
  destruct (cursor_after_navigation three_moves) as (Hgo & Hstep & _).
  destruct (Hgo 2 (settle (goToMove 2 three_moves) three_moves) eq_refl)
    as (_ & _ & Hiff & _).
  destruct (Hstep Hin) as [Hnext Hprev].
  destruct (cursor_after_navigation (setPgnInput "e2 e3 d4" initial))
    as (_ & _ & _ & _ & Hload & _).
  destruct (cursor_after_navigation bad_text) as (_ & _ & _ & _ & _ & Hbad).
  split; [apply Hiff; vm_compute; split; [discriminate|reflexivity]|].
  split; [exact Hnext|]. split; [exact Hprev|].
  split; [eapply Hload; [reflexivity|discriminate]|].
  apply Hbad. reflexivity.
Defined.

(** C6 (as stated) fails: on a list of three moves [goToMove(7)] returns
    with the cursor at 7, and [goToMove(-5)] with the cursor at -5; neither
    is clamped, and the first is outside the bounds of the data model. *)
Lemma goToMove_stores_any_index :
  length (moves three_moves) = 3%nat /\
  currentMoveIndex (settle (goToMove 7 three_moves) three_moves) = 7 /\
  ~ cursor_in_bounds (settle (goToMove 7 three_moves) three_moves) /\
  fen (game (settle (goToMove 7 three_moves) three_moves)) = "d4" /\
  currentMoveIndex (settle (goToMove (-5) three_moves) three_moves) = -5 /\
  ~ cursor_in_bounds (settle (goToMove (-5) three_moves) three_moves).
Proof.
  repeat split; try reflexivity.
  - vm_compute. intros [_ H]. discriminate H.
  - vm_compute. intros [H _]. apply H. reflexivity.
Qed.

Lemma loadGame_outcome_witness :
  (loadGame bad_text = setErrorMessage INVALID_PGN bad_text /\
   moves (loadGame bad_text) = moves three_moves /\
   moveHistory (loadGame bad_text) = ["Ke2"; "Ke3"; "Kd4"]) /\
  (moveHistory played = ["Ke2"] /\
   fen (game played) = "e2" /\
   currentMoveIndex (loadGame played) = 0 /\
   fen (game (loadGame played)) = "e1" /\
   moveHistory (loadGame played) = ["Ke2"; "Ke3"; "Kd4"]).
Proof.
  destruct (loadGame_outcome bad_text) as [Hbad _].
  destruct (loadGame_outcome played) as [_ Hgood].
  destruct (Hbad eq_refl) as (Heq & Hm & _ & _ & Hh & _).
  destruct (Hgood _ eq_refl) as (Hc & Hg & _ & Hh' & _).
  split.
  - split; [exact Heq|]. split; [exact Hm | exact Hh].
  - split; [reflexivity|]. split; [reflexivity|].
    split; [exact Hc|]. split; [|exact Hh'].
    rewrite Hg. reflexivity.
Defined.

(** C5 (as stated) fails on the cursor: after a successful [loadGame] the
    cursor is 0, not the sentinel -1 that the data model gives to the
    starting position, although the board is at the starting position. *)
Lemma loadGame_cursor_is_zero :
  loadPgn (pgnInput (setPgnInput "e2 e3 d4" initial))
    = Returns [(e1, (4, 1)%nat); ((4, 1)%nat, (4, 2)%nat); ((4, 2)%nat, (3, 3)%nat)] /\
  currentMoveIndex (loadGame (setPgnInput "e2 e3 d4" initial)) = 0 /\
  currentMoveIndex (loadGame (setPgnInput "e2 e3 d4" initial)) <> -1 /\
  game (loadGame (setPgnInput "e2 e3 d4" initial)) = new_Chess.
Proof.
  split; [reflexivity|]. split; [reflexivity|]. split; [|reflexivity].
  vm_compute. discriminate.
Qed.

Lemma bestMoveToArrow_pair_witness :
  bestMoveToArrow (Str "e7e8q") = [("e7", "e8", ARROW_COLOUR)].
Proof.
  destruct (bestMoveToArrow_pair "e7e8q") as [Hpair _].
  - vm_compute. lia.
  - exact Hpair.
Defined.

Lemma goToMove_hides_best_move_witness :
  showBestMove (with_arrow three_moves) = true /\
  arrows (with_arrow three_moves) = [("e2", "e4", ARROW_COLOUR)] /\
  showBestMove (settle (goToMove 1 (with_arrow three_moves)) (with_arrow three_moves))
    = false /\
  arrows (arrows_effect
            (settle (goToMove 1 (with_arrow three_moves)) (with_arrow three_moves)))
    = [].
Proof.
  destruct (goToMove_hides_best_move 1 (with_arrow three_moves)
              (settle (goToMove 1 (with_arrow three_moves)) (with_arrow three_moves))
              eq_refl)
    as (Hflag & Harrows & _).
  split; [reflexivity|]. split; [reflexivity|].
  split; [exact Hflag | exact Harrows].
Defined.

(** C10 (as stated) fails when the replay throws: the game loaded from a
    set-up position has a first move that cannot be played from the position
    of [new Chess()]; [goToMove(0)] throws on it before any setter is
    reached, and the flag and the arrow stay. *)
Lemma goToMove_throws_and_keeps_arrow :
  loadPgn "@e4 e5" = Returns [((4, 3)%nat, (4, 4)%nat)] /\
  moves (with_arrow set_up_game) = [((4, 3)%nat, (4, 4)%nat)] /\
  move new_Chess ((4, 3)%nat, (4, 4)%nat) = Raised /\
  goToMove 0 (with_arrow set_up_game) = Throws /\
  showBestMove (settle (goToMove 0 (with_arrow set_up_game)) (with_arrow set_up_game))
    = true /\
  arrows (arrows_effect
            (settle (goToMove 0 (with_arrow set_up_game)) (with_arrow set_up_game)))
    = [("e2", "e4", ARROW_COLOUR)].
Proof. repeat split; reflexivity. Qed.

End Examples.

(** * Further properties of the analysis client *)

Section TrafficFacts.
Import JS Api Traffic.

Lemma handed_app (xs ys : list Effect) : handed (xs ++ ys) = handed xs ++ handed ys.
Proof.
  induction xs as [|x xs IH]; [reflexivity|].
  destruct x; simpl; rewrite IH; reflexivity.
Qed.

Lemma truthy_string fen :
  truthy fen = true -> exists position, fen = Str position /\ position <> EmptyString.
Proof.
  destruct fen as [| |[|c s]]; try discriminate.
  intros _. exists (String c s). split; [reflexivity|discriminate].
Qed.

Lemma step_handed e w :
  handed (effects (step e w)) =
    handed (effects w) ++ match result_of e w with Some a => [a] | None => [] end.
Proof.
  destruct e as [|fen| |id|id data|id|id|k|k outcome]; simpl.
  - unfold connect, new_WebSocket, socket_close.
    destruct (ws (this w)); simpl; rewrite !handed_app; simpl;
      rewrite ?app_nil_r; reflexivity.
  - unfold analyze. destruct (falsy fen); [rewrite app_nil_r; reflexivity|].
    destruct (channel_open _).
    + simpl. destruct (ws (this w)); simpl; rewrite !handed_app; simpl;
        rewrite ?app_nil_r; reflexivity.
    + unfold fallbackToHttp, analyzePosition. destruct (falsy fen); simpl;
        rewrite !handed_app; simpl; rewrite ?app_nil_r; reflexivity.
  - unfold disconnect, socket_close.
    destruct (ws (this w)); simpl; rewrite ?handed_app; simpl;
      rewrite ?app_nil_r; reflexivity.
  - rewrite handed_app. simpl. reflexivity.
  - destruct data; simpl; rewrite !handed_app; simpl; rewrite ?app_nil_r; reflexivity.
  - rewrite handed_app. simpl. reflexivity.
  - unfold onclose, tryReconnect; simpl.
    destruct (_ <? _); simpl; rewrite !handed_app; simpl; rewrite ?app_nil_r; reflexivity.
  - destruct (timers w !! k); [|rewrite app_nil_r; reflexivity].
    unfold connect, new_WebSocket, socket_close; simpl.
    destruct (ws (this w)); simpl; rewrite !handed_app; simpl;
      rewrite ?app_nil_r; reflexivity.
  - destruct (inflight w !! k).
    + destruct outcome; simpl; rewrite !handed_app; simpl;
        rewrite ?app_nil_r; reflexivity.
    + destruct outcome; rewrite app_nil_r; reflexivity.
Qed.

Lemma run_handed (es : list Event) : forall w,
  handed (effects (run es w)) = handed (effects w) ++ results es w.
Proof.
  induction es as [|e es IH]; intros w; simpl.
  - rewrite app_nil_r. reflexivity.
  - rewrite IH, step_handed.
    destruct (result_of e w); rewrite <- app_assoc; reflexivity.
Qed.

(** X1: in every run, the results passed to [onAnalysis] are exactly the
    results of the messages that parse and of the answered pending requests,
    each once, unchanged and in the order of arrival; a malformed message,
    a failed request and every other event pass nothing. *)
Theorem callbacks_follow_results (es : list Event) (w : World) :
  handed (effects (run es w)) = handed (effects w) ++ results es w /\
  (forall id raw, result_of (Socket_message id (Malformed raw)) w = None) /\
  (forall k text, result_of (Request_ends k (NotOk text)) w = None) /\
  (forall k, result_of (Request_ends k Failed) w = None) /\
  (forall k result, inflight w !! k = None ->
     result_of (Request_ends k (Answered result)) w = None).
Proof.
  split; [apply run_handed|]. repeat split.
  intros k result H. simpl. rewrite H. reflexivity.
Qed.

(** ** Questions and what answers them *)

Lemma traffic_emit e w :
  traffic (emit e w) =
    (traffic w + (if is_SocketSend e then 1 else 0) + (if is_Fetch e then 1 else 0))%nat.
Proof.
  unfold traffic. rewrite !count_emit.
  destruct (is_SocketSend e), (is_Fetch e); lia.
Qed.

Lemma traffic_connect w : traffic (connect w) = traffic w.
Proof.
  unfold traffic, connect, new_WebSocket, socket_close, count.
  destruct (ws (this w)); simpl; rewrite !tally_app; simpl; lia.
Qed.

Lemma step_traffic e w :
  traffic (step e w) = (traffic w + if asks e then 1 else 0)%nat.
Proof.
  destruct e as [|fen| |id|id data|id|id|k|k outcome]; simpl.
  - rewrite traffic_connect. lia.
  - destruct (truthy fen) eqn:Ht.
    + destruct (truthy_string fen Ht) as (position & -> & Hne).
      destruct (channel_open w) eqn:Hopen.
      * destruct (analyze_open position w Hne Hopen) as (id & _ & _ & ->).
        rewrite !traffic_emit. simpl. lia.
      * rewrite (analyze_fallback position w Hne Hopen).
        unfold traffic, analyzePosition, count; simpl.
        rewrite !tally_app; simpl. lia.
    + unfold analyze, falsy. rewrite Ht. simpl. lia.
  - unfold traffic, disconnect, socket_close, count.
    destruct (ws (this w)); simpl; rewrite ?tally_app; simpl; lia.
  - unfold traffic, count; simpl. rewrite !tally_app; simpl. lia.
  - unfold traffic, count. destruct data; simpl; rewrite !tally_app; simpl; lia.
  - unfold traffic, count; simpl. rewrite !tally_app; simpl. lia.
  - unfold traffic, count, onclose, tryReconnect; simpl.
    destruct (_ <? _); simpl; rewrite !tally_app; simpl; lia.
  - destruct (timers w !! k); [|lia].
    rewrite traffic_connect. unfold traffic, count. simpl. lia.
  - destruct (inflight w !! k); [|lia].
    unfold traffic, count. destruct outcome; simpl; rewrite !tally_app; simpl; lia.
Qed.

(** X2: in every run, each call of [analyze] with a non-empty position puts
    exactly one message on the channel or issues exactly one request, and
    nothing else does either: not a falsy position, not [connect] or
    [disconnect], and no event of a socket, timer or request (the error
    handler's fallback has no position and asks nothing). *)
Theorem each_question_goes_out_once (es : list Event) (w : World) :
  (count is_SocketSend (run es w) + count is_Fetch (run es w) =
   count is_SocketSend w + count is_Fetch w + asked es)%nat.
Proof.
  fold (traffic (run es w)). fold (traffic w).
  revert w. induction es as [|e es IH]; intros w; simpl; [lia|].
  rewrite IH, step_traffic. lia.
Qed.

(** ** One channel at a time *)

Lemma idle_closing s : idle (closing s) = true.
Proof. destruct s; reflexivity. Qed.

Lemma single_channel_connect w : single_channel w -> single_channel (connect w).
Proof.
  unfold single_channel, connect, new_WebSocket, socket_close.
  destruct (ws (this w)) as [id|] eqn:Hws; simpl.
  - intros [Hlen Hold].
    destruct (sockets w !! id) as [s|] eqn:Hs; simpl.
    + rewrite length_app, length_insert. simpl. split; [lia|].
      intros j s' Hj.
      rewrite lookup_app_l by (rewrite length_insert; lia).
      destruct (decide (j = id)) as [->|Hne].
      * rewrite list_lookup_insert_eq by lia. intros [= <-]. apply idle_closing.
      * rewrite list_lookup_insert_ne by congruence. apply Hold. lia.
    + apply lookup_ge_None in Hs. lia.
  - intros ->. simpl. split; [reflexivity|]. intros j s Hj. lia.
Qed.

Lemma single_channel_frame w w' :
  ws (this w') = ws (this w) -> sockets w' = sockets w ->
  single_channel w -> single_channel w'.
Proof. unfold single_channel. intros -> ->. auto. Qed.

Lemma single_channel_mark id s w :
  single_channel w ->
  (idle s = true \/ ws (this w) = Some id) ->
  is_Some (sockets w !! id) ->
  single_channel (mark id s w).
Proof.
  unfold single_channel, mark; simpl.
  destruct (ws (this w)) as [cur|].
  - intros [Hlen Hold] Hs Hin. rewrite length_insert. split; [exact Hlen|].
    intros j s' Hj. destruct (decide (j = id)) as [->|Hne].
    + apply lookup_lt_is_Some in Hin.
      rewrite list_lookup_insert_eq by exact Hin. intros [= <-].
      destruct Hs as [Hs|[= ->]]; [exact Hs|lia].
    + rewrite list_lookup_insert_ne by congruence. apply Hold. exact Hj.
  - intros -> _ [x Hx]. discriminate Hx.
Qed.

Lemma single_channel_step e w :
  single_channel w -> enabled e w = true -> single_channel (step e w).
Proof.
  intros Hinv Hen.
  destruct e as [|fen| |id|id data|id|id|k|k outcome]; simpl in *.
  - apply single_channel_connect. exact Hinv.
  - destruct (analyze_frame fen w) as (Ht & _ & Hs & _).
    apply (single_channel_frame w); [rewrite Ht; reflexivity|exact Hs|exact Hinv].
  - unfold disconnect. destruct (ws (this w)) as [id|] eqn:Hws; [|exact Hinv].
    unfold single_channel in *. rewrite Hws in Hinv. destruct Hinv as [Hlen Hold].
    unfold socket_close; simpl. rewrite Hws.
    destruct (sockets w !! id) as [s|] eqn:Hs; [|apply lookup_ge_None in Hs; lia].
    rewrite length_insert. split; [exact Hlen|].
    intros j s' Hj. rewrite list_lookup_insert_ne by lia. apply Hold. exact Hj.
  - apply bool_decide_eq_true in Hen. unfold readyState in Hen.
    apply (single_channel_frame (mark id OPEN w)); try reflexivity.
    apply single_channel_mark; [exact Hinv| |rewrite Hen; eauto].
    right. unfold single_channel in Hinv.
    destruct (ws (this w)) as [cur|].
    + destruct Hinv as [Hlen Hold].
      destruct (lt_eq_lt_dec id cur) as [[Hlt|Heq]|Hgt]; [|rewrite Heq; reflexivity|].
      * specialize (Hold id CONNECTING Hlt Hen). discriminate.
      * apply lookup_lt_Some in Hen. lia.
    + rewrite Hinv in Hen. discriminate.
  - destruct data; exact Hinv.
  - exact Hinv.
  - unfold readyState in Hen.
    destruct (sockets w !! id) as [s|] eqn:Hs; [|discriminate].
    assert (Hm : single_channel (mark id CLOSED w)).
    { apply single_channel_mark; [exact Hinv|left; reflexivity|rewrite Hs; eauto]. }
    apply (single_channel_frame (mark id CLOSED w)); [| |exact Hm].
    + unfold onclose, tryReconnect; simpl. destruct (_ <? _); reflexivity.
    + unfold onclose, tryReconnect; simpl. destruct (_ <? _); reflexivity.
  - destruct (timers w !! k); [|exact Hinv].
    apply single_channel_connect. exact Hinv.
  - destruct (inflight w !! k); [|exact Hinv].
    destruct outcome; exact Hinv.
Qed.

Lemma single_channel_run es : forall w,
  single_channel w -> feasible es w = true -> single_channel (run es w).
Proof.
  induction es as [|e es IH]; intros w Hinv Hf; simpl in *; [exact Hinv|].
  apply andb_true_iff in Hf as [He Hf].
  apply IH; [apply single_channel_step; assumption | exact Hf].
Qed.

(** X3: in every run from a new object in which the browser delivers the
    socket events as it can (a socket opens only while connecting), [this.ws]
    is the socket created last and every other socket is closing or closed:
    at most one socket is connecting or open at any time, and [connect]
    never leaves an earlier one live. *)
Theorem one_live_socket (es : list Event) :
  feasible es constructor = true ->
  single_channel (run es constructor) /\
  (forall j s, sockets (run es constructor) !! j = Some s -> idle s = false ->
     ws (this (run es constructor)) = Some j) /\
  (ws (this (run es constructor)) = None -> sockets (run es constructor) = []).
Proof.
  intros Hf.
  assert (Hinv : single_channel (run es constructor))
    by (apply single_channel_run; [reflexivity | exact Hf]).
  split; [exact Hinv|]. unfold single_channel in Hinv.
  destruct (ws (this (run es constructor))) as [id|].
  - destruct Hinv as [Hlen Hold]. split; [|discriminate].
    intros j s Hj Hlive.
    destruct (lt_eq_lt_dec j id) as [[Hlt|Heq]|Hgt].
    + rewrite (Hold j s Hlt Hj) in Hlive. discriminate.
    + rewrite Heq. reflexivity.
    + apply lookup_lt_Some in Hj. lia.
  - split; [|intros _; exact Hinv].
    intros j s Hj _. rewrite Hinv in Hj. discriminate.
Qed.

Lemma one_live_socket_witness :
  sockets (run ([Call_connect; Socket_open 0%nat] ++ six_failures) constructor)
    = [CLOSED; CLOSED; CLOSED; CLOSED; CLOSED; CLOSED] /\
  single_channel (run [Call_connect; Socket_open 0%nat; Call_connect] constructor) /\
  sockets (run [Call_connect; Socket_open 0%nat; Call_connect] constructor)
    = [CLOSING; CONNECTING].
Proof.
  split; [reflexivity|]. split; [|reflexivity].
  apply (one_live_socket [Call_connect; Socket_open 0%nat; Call_connect]).
  reflexivity.
Defined.

(** ** The fallback while no socket is open *)

Lemma channel_open_connect w : channel_open (connect w) = false.
Proof.
  unfold channel_open, connect, new_WebSocket, readyState; simpl.
  apply bool_decide_eq_false.
  rewrite lookup_app_r by lia.
  replace (_ - _)%nat with 0%nat by lia. simpl. discriminate.
Qed.

Lemma channel_open_disconnect w : channel_open (disconnect w) = false.
Proof.
  destruct (disconnect_frame w) as (_ & _ & Hws & _).
  unfold channel_open. rewrite Hws.
  destruct (ws (this w)) as [id|] eqn:E; [|reflexivity].
  apply bool_decide_eq_false.
  unfold disconnect. rewrite E.
  change (readyState id (set_this (set_connected false) (socket_close id w)))
    with (readyState id (socket_close id w)).
  rewrite readyState_socket_close.
  destruct (decide (id = id)); [|congruence].
  destruct (readyState id w) as [[]|]; simpl; discriminate.
Qed.

Lemma channel_open_mark_closed id w :
  channel_open w = false -> channel_open (mark id CLOSED w) = false.
Proof.
  unfold channel_open, mark, readyState; simpl.
  destruct (ws (this w)) as [cur|]; [|reflexivity].
  intros H. apply bool_decide_eq_false in H. apply bool_decide_eq_false.
  destruct (decide (cur = id)) as [->|Hne].
  - destruct (sockets w !! id) eqn:E.
    + rewrite list_lookup_insert_eq by (eapply lookup_lt_Some; eassumption).
      discriminate.
    + rewrite list_insert_ge by (apply lookup_ge_None; exact E).
      rewrite E. discriminate.
  - rewrite list_lookup_insert_ne by congruence. exact H.
Qed.

(** Only an open event opens the channel. *)
Lemma channel_stays_closed e w :
  is_open e = false -> channel_open w = false -> channel_open (step e w) = false.
Proof.
  intros Ho Hc.
  destruct e as [|fen| |id|id data|id|id|k|k outcome]; try discriminate; simpl.
  - apply channel_open_connect.
  - destruct (analyze_frame fen w) as (Ht & _ & Hs & _).
    unfold channel_open, readyState in *. rewrite Ht, Hs. exact Hc.
  - apply channel_open_disconnect.
  - destruct data; exact Hc.
  - exact Hc.
  - apply (channel_open_mark_closed id) in Hc.
    unfold onclose, tryReconnect; simpl. destruct (_ <? _); exact Hc.
  - destruct (timers w !! k); [apply channel_open_connect | exact Hc].
  - destruct (inflight w !! k); [|exact Hc]. destruct outcome; exact Hc.
Qed.

Lemma channel_stays_closed_run es : forall w,
  no_open es = true -> channel_open w = false -> channel_open (run es w) = false.
Proof.
  induction es as [|e es IH]; intros w Hno Hc; simpl in *; [exact Hc|].
  apply andb_true_iff in Hno as [He Hno]. apply negb_true_iff in He.
  apply IH; [exact Hno | apply channel_stays_closed; assumption].
Qed.

Lemma closed_channel_asks_http position w :
  position <> EmptyString -> channel_open w = false ->
  count is_Fetch (analyze (Str position) w) = S (count is_Fetch w) /\
  count is_SocketSend (analyze (Str position) w) = count is_SocketSend w.
Proof.
  intros Hne Hc. rewrite (analyze_fallback position w Hne Hc).
  unfold analyzePosition, count; simpl. rewrite !tally_app; simpl. lia.
Qed.

(** X4: after [disconnect()], and equally after [connect()], as long as no
    socket opens, every [analyze] with a non-empty position goes out as an
    HTTP request and nothing is sent on the channel, whatever else happens
    in between (closures, timers firing, further calls). *)
Theorem fallback_until_open (w : World) (es : list Event) (position : string) :
  no_open es = true ->
  position <> EmptyString ->
  (channel_open (run es (disconnect w)) = false /\
   count is_Fetch (analyze (Str position) (run es (disconnect w)))
     = S (count is_Fetch (run es (disconnect w))) /\
   count is_SocketSend (analyze (Str position) (run es (disconnect w)))
     = count is_SocketSend (run es (disconnect w))) /\
  (channel_open (run es (connect w)) = false /\
   count is_Fetch (analyze (Str position) (run es (connect w)))
     = S (count is_Fetch (run es (connect w))) /\
   count is_SocketSend (analyze (Str position) (run es (connect w)))
     = count is_SocketSend (run es (connect w))).
Proof.
  intros Hno Hne.
  assert (Hd : channel_open (run es (disconnect w)) = false)
    by (apply channel_stays_closed_run; [exact Hno | apply channel_open_disconnect]).
  assert (Hc : channel_open (run es (connect w)) = false)
    by (apply channel_stays_closed_run; [exact Hno | apply channel_open_connect]).
  split; (split; [assumption | apply closed_channel_asks_http; assumption]).
Qed.

Lemma fallback_until_open_witness :
  count is_SocketSend (analyze (Str START_FEN) after_open) = 1%nat /\
  count is_Fetch
    (analyze (Str START_FEN) (run [Socket_close 0%nat] (disconnect after_open)))
    = 1%nat /\
  count is_SocketSend
    (analyze (Str START_FEN) (run [Socket_close 0%nat] (disconnect after_open)))
    = 0%nat.
Proof.
  assert (Hne : START_FEN <> EmptyString) by discriminate.
  destruct (fallback_until_open after_open [Socket_close 0%nat] START_FEN eq_refl Hne)
    as [(_ & Hfetch & Hsend) _].
  split; [reflexivity|]. split; [exact Hfetch | exact Hsend].
Defined.

(** ** Connections the object makes on its own *)

Lemma counter_in_range (es : list Event) :
  0 <= reconnectAttempts (this (run es constructor)) <= 5.
Proof.
  destruct (run_decompose es) as (history & rest & -> & Hzero & Hno).
  rewrite run_app.
  destruct (run_closures rest (run history constructor) Hno) as [Hc _].
  - rewrite run_limit. simpl. lia.
  - rewrite Hc, run_limit, Hzero. simpl. lia.
Qed.

Lemma budget_step e w :
  is_open e = false -> is_connect_call e = false ->
  budget (step e w) = budget w.
Proof.
  intros Ho Hc. unfold budget.
  destruct e as [|fen| |id|id data|id|id|k|k outcome]; try discriminate; simpl.
  - destruct (analyze_frame fen w) as (-> & -> & -> & _). reflexivity.
  - destruct (disconnect_frame w) as (-> & -> & _ & -> & _).
    unfold disconnect, socket_close. destruct (ws (this w)); simpl; [|reflexivity].
    destruct (sockets w !! n); rewrite ?length_insert; reflexivity.
  - destruct data; reflexivity.
  - reflexivity.
  - unfold onclose, tryReconnect; simpl.
    destruct (_ <? _); simpl; rewrite ?length_app, !length_insert; simpl; lia.
  - destruct (timers w !! k) eqn:E; [|reflexivity].
    unfold connect, new_WebSocket, socket_close; simpl.
    assert (Hdel : length (delete k (timers w)) = (length (timers w) - 1)%nat)
      by (apply length_delete; rewrite E; eauto).
    apply lookup_lt_Some in E.
    destruct (ws (this w)) as [id|]; simpl.
    + destruct (sockets w !! id); simpl;
        rewrite length_app, ?length_insert, Hdel; simpl; lia.
    + rewrite length_app, Hdel; simpl; lia.
  - destruct (inflight w !! k); [|reflexivity]. destruct outcome; reflexivity.
Qed.

Lemma budget_run es : forall w,
  no_open es = true -> no_connect_call es = true -> budget (run es w) = budget w.
Proof.
  induction es as [|e es IH]; intros w Hno Hnc; simpl in *; [reflexivity|].
  apply andb_true_iff in Hno as [He Hno]. apply negb_true_iff in He.
  apply andb_true_iff in Hnc as [Hc Hnc]. apply negb_true_iff in Hc.
  rewrite IH by assumption. apply budget_step; assumption.
Qed.

(** X5: while no socket opens and the host does not call [connect], the
    sockets ever created, the pending timers and the attempts left add up to
    a constant: each closure turns an attempt into a timer and each timer
    that fires turns into a socket.  So from a zero counter with no timer
    pending the object opens at most 5 more sockets on its own. *)
Theorem own_connections_bounded (history es : list Event) :
  no_open es = true ->
  no_connect_call es = true ->
  budget (run es (run history constructor)) = budget (run history constructor) /\
  (length (sockets (run es (run history constructor))) <=
   length (sockets (run history constructor))
   + length (timers (run history constructor))
   + Z.to_nat (5 - reconnectAttempts (this (run history constructor))))%nat /\
  (reconnectAttempts (this (run history constructor)) = 0 ->
   timers (run history constructor) = [] ->
   (length (sockets (run es (run history constructor))) <=
    length (sockets (run history constructor)) + 5)%nat).
Proof.
  intros Hno Hnc.
  pose proof (budget_run es (run history constructor) Hno Hnc) as Hb.
  pose proof (counter_in_range history) as H0.
  pose proof (counter_in_range (history ++ es)) as H1.
  rewrite run_app in H1.
  assert (Hle : (length (sockets (run es (run history constructor))) <=
                 length (sockets (run history constructor))
                 + length (timers (run history constructor))
                 + Z.to_nat (5 - reconnectAttempts (this (run history constructor))))%nat).
  { unfold budget in Hb. rewrite !run_limit in Hb. simpl in Hb. lia. }
  split; [exact Hb|]. split; [exact Hle|].
  intros Hz Ht. rewrite Hz, Ht in Hle. simpl in Hle. lia.
Qed.

Lemma own_connections_bounded_witness :
  length (sockets after_open) = 1%nat /\
  length (sockets (run six_failures after_open)) = 6%nat /\
  (length (sockets (run (six_failures ++ [Socket_error 5%nat; Timer_fires 0%nat])
                        after_open)) <= 1 + 5)%nat.
Proof.
  destruct (own_connections_bounded [Call_connect; Socket_open 0%nat]
              (six_failures ++ [Socket_error 5%nat; Timer_fires 0%nat])
              eq_refl eq_refl) as (_ & _ & Hbound).
  split; [reflexivity|]. split; [reflexivity|].
  apply Hbound; reflexivity.
Defined.

(** ** The [connected] field *)

Lemma connect_without_flag w b :
  without_flag (connect (set_this (set_connected b) w)) = without_flag (connect w).
Proof.
  unfold without_flag, connect, new_WebSocket, socket_close.
  destruct w as [[cur attempts limit flag] ss ts rs log]; simpl.
  destruct cur; reflexivity.
Qed.

Lemma step_without_flag e w b :
  without_flag (step e (set_this (set_connected b) w)) = without_flag (step e w).
Proof.
  destruct e as [|fen| |id|id data|id|id|k|k outcome]; simpl.
  - apply connect_without_flag.
  - unfold without_flag, analyze, fallbackToHttp, analyzePosition, channel_open, readyState.
    destruct w as [[cur attempts limit flag] ss ts rs log]; simpl.
    destruct (falsy fen); [reflexivity|].
    destruct cur as [id|]; simpl; [|reflexivity].
    destruct (bool_decide (ss !! id = Some OPEN)); reflexivity.
  - unfold without_flag, disconnect, socket_close.
    destruct w as [[cur attempts limit flag] ss ts rs log]; simpl.
    destruct cur; reflexivity.
  - reflexivity.
  - destruct data; reflexivity.
  - reflexivity.
  - unfold without_flag, onclose, tryReconnect.
    destruct w as [[cur attempts limit flag] ss ts rs log]; simpl.
    destruct (attempts <? limit); reflexivity.
  - change (timers (set_this (set_connected b) w)) with (timers w).
    destruct (timers w !! k); [|reflexivity].
    apply (connect_without_flag (set_timers (delete k) w) b).
  - change (inflight (set_this (set_connected b) w)) with (inflight w).
    destruct (inflight w !! k); [|reflexivity].
    destruct outcome; reflexivity.
Qed.

(** X16: the [connected] field is written and never read: two worlds that
    differ in it alone go through any run in the same way, with the same
    sockets, timers, requests and effects and the same other fields.  What
    [analyze] does depends on the [readyState] of the socket only. *)
Theorem connected_is_never_read (es : list Event) (w : World) (b : bool) :
  without_flag (run es (set_this (set_connected b) w)) = without_flag (run es w) /\
  effects (run es (set_this (set_connected b) w)) = effects (run es w) /\
  sockets (run es (set_this (set_connected b) w)) = sockets (run es w) /\
  timers (run es (set_this (set_connected b) w)) = timers (run es w) /\
  inflight (run es (set_this (set_connected b) w)) = inflight (run es w).
Proof.
  assert (H : without_flag (run es (set_this (set_connected b) w))
              = without_flag (run es w)).
  { revert w b. induction es as [|e es IH]; intros w b; simpl; [reflexivity|].
    assert (Hstep := step_without_flag e w b).
    assert (Hsame : forall u v, without_flag u = without_flag v ->
                      without_flag (run es u) = without_flag (run es v)).
    { intros u v Huv.
      assert (Hu : u = set_this (set_connected (connected (this u))) (without_flag u))
        by (destruct u as [[? ? ? ?] ? ? ? ?]; reflexivity).
      assert (Hv : v = set_this (set_connected (connected (this v))) (without_flag v))
        by (destruct v as [[? ? ? ?] ? ? ? ?]; reflexivity).
      rewrite Hu, Hv, Huv, !IH. reflexivity. }
    apply Hsame. exact Hstep. }
  split; [exact H|].
  repeat split;
    [apply (f_equal effects) in H | apply (f_equal sockets) in H
     | apply (f_equal timers) in H | apply (f_equal inflight) in H];
    exact H.
Qed.

End TrafficFacts.

(** * Further properties of the navigation code *)

Section ReviewFacts.
Import JS Coach Review.
Context {engine : RulesEngine}.

(** ** The review buttons *)

Lemma goToMove_frame index st st' :
  goToMove index st = Returns st' ->
  currentMoveIndex st' = index /\ moves st' = moves st /\
  moveHistory st' = moveHistory st /\ showBestMove st' = false /\
  in_step st'.
Proof.
  intros H. destruct (goToMove_returns _ _ _ H) as (position & Hplay & ->).
  repeat split. exact Hplay.
Qed.

(** A press leaves the state as it is, or it is a [goToMove] that returned,
    to an index from 0 to the last. *)
Lemma press_cases b st :
  0 <= currentMoveIndex st < Z.of_nat (length (moves st)) ->
  press b st = st \/
  exists index, 0 <= index < Z.of_nat (length (moves st)) /\
                goToMove index st = Returns (press b st).
Proof.
  intros Hc. unfold press, click, goToNextMove, goToPreviousMove.
  destruct b.
  - destruct (goToMove 0 st) as [st'|] eqn:H; cbn [settle]; [|left; reflexivity].
    right. exists 0. split; [lia|exact H].
  - destruct (Z.gtb_spec (currentMoveIndex st) 0) as [Hgt|Hle];
      [|left; reflexivity].
    destruct (goToMove (currentMoveIndex st - 1) st) as [st'|] eqn:H;
      cbn [settle]; [|left; reflexivity].
    right. exists (currentMoveIndex st - 1). split; [lia|exact H].
  - destruct (Z.ltb_spec (currentMoveIndex st) (Z.of_nat (length (moves st)) - 1))
      as [Hlt|Hge]; [|left; reflexivity].
    destruct (goToMove (currentMoveIndex st + 1) st) as [st'|] eqn:H;
      cbn [settle]; [|left; reflexivity].
    right. exists (currentMoveIndex st + 1). split; [lia|exact H].
  - destruct (goToMove (Z.of_nat (length (moves st)) - 1) st) as [st'|] eqn:H;
      cbn [settle]; [|left; reflexivity].
    right. exists (Z.of_nat (length (moves st)) - 1). split; [lia|exact H].
Qed.

(** X6: from a state whose cursor is between 0 and the last index (as after
    loading a game that has a move), no sequence of the four review buttons
    takes the cursor out of that range, changes the move list or the move
    history; the cursor never becomes -1, so the buttons never lead back to
    the starting position.  Once the board shows the position of the cursor
    it keeps doing so. *)
Theorem review_buttons_keep_cursor (bs : list Button) (st : State) :
  0 <= currentMoveIndex st < Z.of_nat (length (moves st)) ->
  0 <= currentMoveIndex (presses bs st) < Z.of_nat (length (moves st)) /\
  moves (presses bs st) = moves st /\
  moveHistory (presses bs st) = moveHistory st /\
  (in_step st -> in_step (presses bs st)).
Proof.
  revert st. induction bs as [|b bs IH]; intros st Hc; cbn [presses].
  - repeat split; auto; lia.
  - destruct (press_cases b st Hc) as [->|(index & Hi & Hgo)]; [apply IH; exact Hc|].
    destruct (goToMove_frame _ _ _ Hgo) as (Hidx & Hm & Hh & _ & Hstep).
    destruct (IH (press b st)) as (IH1 & IH2 & IH3 & IH4);
      [rewrite Hidx, Hm; exact Hi|].
    rewrite Hm in IH1. rewrite IH2, IH3, Hm, Hh.
    repeat split; auto; lia.
Qed.

(** ** Stepping forth and back *)

Lemma play_app (l1 l2 : list Move) : forall g,
  play (l1 ++ l2) g =
    match play l1 g with
    | Returns g1 => play l2 g1
    | Throws => Throws
    end.
Proof.
  induction l1 as [|m l1 IH]; intros g; [reflexivity|].
  cbn [app play]. destruct (move g m); auto.
Qed.

Lemma upto_prefix i j (ms : list Move) :
  i <= j -> exists rest, upto j ms = upto i ms ++ rest.
Proof.
  intros Hij. unfold upto.
  exists (take (Z.to_nat (j + 1) - Z.to_nat (i + 1)) (drop (Z.to_nat (i + 1)) ms)).
  rewrite take_take_drop. f_equal. lia.
Qed.

Lemma play_prefix i j (ms : list Move) g :
  i <= j -> play (upto j ms) new_Chess = Returns g ->
  exists g', play (upto i ms) new_Chess = Returns g'.
Proof.
  intros Hij H. destruct (upto_prefix i j ms Hij) as [rest Hrest].
  rewrite Hrest, play_app in H.
  destruct (play (upto i ms) new_Chess) as [g'|]; [eauto|discriminate].
Qed.

Lemma goToMove_to index st position :
  play (upto index (moves st)) new_Chess = Returns position ->
  goToMove index st =
    Returns (setShowBestMove false (setCurrentMoveIndex index (setGame position st))).
Proof. intros H. rewrite goToMove_play, H. reflexivity. Qed.

(** X7: when the board shows the position of the cursor, Next followed by
    Previous brings back the same cursor and the same board, provided the
    next move can be replayed; and Previous followed by Next does so from
    any cursor above 0. *)
Theorem next_previous_round_trip (st : State) :
  in_step st ->
  0 <= currentMoveIndex st < Z.of_nat (length (moves st)) ->
  (currentMoveIndex st < Z.of_nat (length (moves st)) - 1 ->
   (exists position,
      play (upto (currentMoveIndex st + 1) (moves st)) new_Chess = Returns position) ->
   currentMoveIndex (press Next st) = currentMoveIndex st + 1 /\
   currentMoveIndex (press Previous (press Next st)) = currentMoveIndex st /\
   game (press Previous (press Next st)) = game st) /\
  (0 < currentMoveIndex st ->
   currentMoveIndex (press Previous st) = currentMoveIndex st - 1 /\
   currentMoveIndex (press Next (press Previous st)) = currentMoveIndex st /\
   game (press Next (press Previous st)) = game st).
Proof.
  intros Hstep Hc. unfold in_step in Hstep. split.
  - intros Hlast [position Hnext].
    assert (H1 : press Next st =
                 setShowBestMove false
                   (setCurrentMoveIndex (currentMoveIndex st + 1) (setGame position st))).
    { unfold press, click, goToNextMove.
      destruct (Z.ltb_spec (currentMoveIndex st) (Z.of_nat (length (moves st)) - 1))
        as [_|Hge]; [|lia].
      rewrite (goToMove_to _ _ _ Hnext). reflexivity. }
    rewrite H1. split; [reflexivity|].
    unfold press, click, goToPreviousMove.
    cbn [currentMoveIndex setShowBestMove setCurrentMoveIndex setGame].
    destruct (Z.gtb_spec (currentMoveIndex st + 1) 0) as [_|Hle]; [|lia].
    replace (currentMoveIndex st + 1 - 1) with (currentMoveIndex st) by lia.
    rewrite (goToMove_to _ _ (game st)) by exact Hstep.
    split; reflexivity.
  - intros Hpos.
    destruct (play_prefix (currentMoveIndex st - 1) (currentMoveIndex st)
                (moves st) (game st)) as [position Hprev]; [lia|exact Hstep|].
    assert (H1 : press Previous st =
                 setShowBestMove false
                   (setCurrentMoveIndex (currentMoveIndex st - 1) (setGame position st))).
    { unfold press, click, goToPreviousMove.
      destruct (Z.gtb_spec (currentMoveIndex st) 0) as [_|Hle]; [|lia].
      rewrite (goToMove_to _ _ _ Hprev). reflexivity. }
    rewrite H1. split; [reflexivity|].
    unfold press, click, goToNextMove.
    cbn [currentMoveIndex moves setShowBestMove setCurrentMoveIndex setGame].
    destruct (Z.ltb_spec (currentMoveIndex st - 1) (Z.of_nat (length (moves st)) - 1))
      as [_|Hge]; [|lia].
    replace (currentMoveIndex st - 1 + 1) with (currentMoveIndex st) by lia.
    rewrite (goToMove_to _ _ (game st)) by exact Hstep.
    split; reflexivity.
Qed.

(** ** Loading *)

(** X8: loading the same text a second time changes nothing further; and
    [loadGame] never touches the best-move flag, the analysis, the arrows,
    the analysing flag, the text typed in or the colour, so an arrow shown
    before loading is still shown after it. *)
Theorem loadGame_again (st : State) :
  loadGame (loadGame st) = loadGame st /\
  showBestMove (loadGame st) = showBestMove st /\
  analysis (loadGame st) = analysis st /\
  arrows (loadGame st) = arrows st /\
  arrows (arrows_effect (loadGame st)) = arrows (arrows_effect st) /\
  isAnalyzing (loadGame st) = isAnalyzing st /\
  pgnInput (loadGame st) = pgnInput st /\
  playerColor (loadGame st) = playerColor st.
Proof.
  unfold loadGame, arrows_effect.
  destruct (loadPgn (pgnInput st)) as [history|] eqn:H; cbn; rewrite H; cbn;
    repeat split; destruct (analysis st); try reflexivity;
    destruct (showBestMove st && truthy (Api.best_move _)); reflexivity.
Qed.

(** X9: after a successful [loadGame] the board is at the starting position
    with the cursor at 0, so the first press of Next goes to index 1: on a
    game of two moves or more it shows the position after the first two
    moves, and on a game of one move or none it does nothing.  The position
    after the first move alone is not reached by Next. *)
Theorem next_after_load (st : State) (history : list Move) :
  loadPgn (pgnInput st) = Returns history ->
  game (loadGame st) = new_Chess /\
  currentMoveIndex (loadGame st) = 0 /\
  ((length history <= 1)%nat -> goToNextMove (loadGame st) = Returns (loadGame st)) /\
  ((2 <= length history)%nat ->
     goToNextMove (loadGame st) = goToMove 1 (loadGame st) /\
     forall st', goToNextMove (loadGame st) = Returns st' ->
       currentMoveIndex st' = 1 /\
       play (take 2 history) new_Chess = Returns (game st')).
Proof.
  intros H.
  assert (Hg : game (loadGame st) = new_Chess)
    by (unfold loadGame; rewrite H; reflexivity).
  assert (Hc : currentMoveIndex (loadGame st) = 0)
    by (unfold loadGame; rewrite H; reflexivity).
  assert (Hm : moves (loadGame st) = history)
    by (unfold loadGame; rewrite H; reflexivity).
  split; [exact Hg|]. split; [exact Hc|].
  unfold goToNextMove. rewrite Hc, Hm. split.
  - intros Hlen.
    destruct (Z.ltb_spec 0 (Z.of_nat (length history) - 1)) as [Hlt|_]; [lia|reflexivity].
  - intros Hlen.
    destruct (Z.ltb_spec 0 (Z.of_nat (length history) - 1)) as [_|Hge]; [|lia].
    split; [reflexivity|].
    intros st' Hgo. destruct (goToMove_returns _ _ _ Hgo) as (position & Hplay & ->).
    rewrite Hm in Hplay. split; [reflexivity|exact Hplay].
Qed.

(** ** Direct play *)

(** X10: a move played on the board does not enter the move list: a
    [goToMove] after it replays the loaded moves exactly as it would have
    before the move, and the played move survives only in the move
    history. *)
Theorem navigation_after_direct_play (m : Move) (st st1 : State) (index : Z) :
  makeMove m st = Returns (true, st1) ->
  goToMove index st1 =
    match goToMove index st with
    | Returns a => Returns (setMoveHistory (moveHistory st1) a)
    | Throws => Throws
    end /\
  exists result, moveHistory st1 = moveHistory st ++ [san result].
Proof.
  intros H. unfold makeMove in H.
  destruct (Chess_of_fen (fen (game st))) as [gameCopy|]; [|discriminate].
  destruct (move gameCopy m) as [after result| |]; try discriminate.
  injection H as <-. split; [|exists result; reflexivity].
  rewrite !goToMove_play. cbn [moves setShowBestMove setMoveHistory setGame].
  destruct (play (upto index (moves st)) new_Chess) as [position|]; reflexivity.
Qed.

Lemma try_move_frame m st :
  moves (try_move m st) = moves st /\
  currentMoveIndex (try_move m st) = currentMoveIndex st /\
  isReviewMode (try_move m st) = isReviewMode st /\
  exists added, moveHistory (try_move m st) = moveHistory st ++ added /\
                (length added <= 1)%nat.
Proof.
  unfold try_move, makeMove.
  destruct (Chess_of_fen (fen (game st))) as [gameCopy|].
  - destruct (move gameCopy m) as [after result| |]; cbn; repeat split.
    + exists [san result]. split; [reflexivity|simpl; lia].
    + exists []. rewrite app_nil_r. split; [reflexivity|simpl; lia].
    + exists []. rewrite app_nil_r. split; [reflexivity|simpl; lia].
  - repeat split. exists []. rewrite app_nil_r. split; [reflexivity|simpl; lia].
Qed.

(** X11: however many moves are tried on the board, the loaded move list,
    the cursor and review mode stay as they are, and the move history only
    grows at its end, by at most one entry for each move tried. *)
Theorem direct_play_keeps_review_data (ms : list Move) (st : State) :
  moves (try_moves ms st) = moves st /\
  currentMoveIndex (try_moves ms st) = currentMoveIndex st /\
  isReviewMode (try_moves ms st) = isReviewMode st /\
  exists added,
    moveHistory (try_moves ms st) = moveHistory st ++ added /\
    (length added <= length ms)%nat.
Proof.
  revert st. induction ms as [|m ms IH]; intros st; cbn [try_moves].
  - repeat split. exists []. rewrite app_nil_r. split; [reflexivity|simpl; lia].
  - destruct (try_move_frame m st) as (Hm & Hc & Hr & a1 & Ha1 & Hl1).
    destruct (IH (try_move m st)) as (IHm & IHc & IHr & a2 & Ha2 & Hl2).
    rewrite IHm, IHc, IHr, Hm, Hc, Hr. repeat split.
    exists (a1 ++ a2). rewrite Ha2, Ha1, <- app_assoc.
    split; [reflexivity|]. rewrite length_app. simpl. lia.
Qed.

(** ** The move history text *)





(** ** What the handlers never do *)







End ReviewFacts.

(** * The component and its client together *)

Section SessionFacts.
Import JS Coach Api Traffic Session.
Context {engine : RulesEngine}.

Lemma deliver_last (earlier : list Analysis) (a : Analysis) (st : State) :
  deliver (earlier ++ [a]) st = onAnalysis a (deliver earlier st).
Proof. unfold deliver. rewrite fold_left_app. reflexivity. Qed.

Lemma app_run_client (es : list Event) : forall app,
  ui (app_run (map Client es) app) = deliver (results es (client app)) (ui app) /\
  client (app_run (map Client es) app) = run es (client app) /\
  ws_set (app_run (map Client es) app) = ws_set app /\
  awaited (app_run (map Client es) app) = awaited app.
Proof.
  induction es as [|e es IH]; intros app; cbn [map app_run results run].
  - repeat split.
  - destruct (IH (app_step (Client e) app)) as (Hu & Hc & Hw & Ha).
    rewrite Hu, Hc, Hw, Ha. cbn [app_step ui client ws_set awaited].
    destruct (result_of e (client app)); repeat split.
Qed.

(** X13: over any events of the client, the component state is what the
    callback makes of the results handed over, in their order: the analysis
    shown is the last result that arrived, whichever position it answers,
    and the analysing flag is then off; when no result arrives, both the
    analysis and the flag stay as they were.  Nothing else of the component
    state is touched. *)
Theorem analysis_follows_results (es : list Event) (app : App) :
  ui (app_run (map Client es) app) = deliver (results es (client app)) (ui app) /\
  handed (effects (client (app_run (map Client es) app)))
    = handed (effects (client app)) ++ results es (client app) /\
  (results es (client app) = [] -> ui (app_run (map Client es) app) = ui app) /\
  (forall earlier last, results es (client app) = earlier ++ [last] ->
     analysis (ui (app_run (map Client es) app)) = Some last /\
     isAnalyzing (ui (app_run (map Client es) app)) = false) /\
  game (ui (app_run (map Client es) app)) = game (ui app) /\
  moves (ui (app_run (map Client es) app)) = moves (ui app) /\
  currentMoveIndex (ui (app_run (map Client es) app)) = currentMoveIndex (ui app) /\
  showBestMove (ui (app_run (map Client es) app)) = showBestMove (ui app).
Proof.
  destruct (app_run_client es app) as (Hu & Hc & _ & _).
  split; [exact Hu|]. split; [rewrite Hc; apply run_handed|].
  split; [intros Hnone; rewrite Hu, Hnone; reflexivity|].
  split.
  { intros earlier last Hlast. rewrite Hu, Hlast, deliver_last. split; reflexivity. }
  rewrite Hu. generalize (results es (client app)) as rs.
  intros rs. generalize (ui app) as st.
  induction rs as [|r rs IH]; intros st; [repeat split|].
  change (deliver (r :: rs) st) with (deliver rs (onAnalysis r st)).
  destruct (IH (onAnalysis r st)) as (-> & -> & -> & ->). repeat split.
Qed.


End SessionFacts.

(** * The evaluation bar *)

Section BarFacts.
Import Bar.

(** X15: the percentage of the evaluation bar is never below 0 nor above
    100, whatever the evaluation; for a mate it is 100 when [mateIn] is
    above 0 and 0 otherwise. *)
Theorem percentage_within_bounds
    (number : Type) (literal : Z -> number) (gt : number -> number -> bool)
    (add mul div : number -> number -> number) (props : Props number) :
  gt (literal 0) (literal 0) = false ->
  gt (literal 100) (literal 100) = false ->
  gt (literal 0) (literal 100) = false ->
  gt (literal 0) (getPercentage number literal gt add mul div props) = false /\
  gt (getPercentage number literal gt add mul div props) (literal 100) = false /\
  (isMate number props = true ->
   getPercentage number literal gt add mul div props =
     if gt (mateIn number props) (literal 0) then literal 100 else literal 0).
Proof.
  intros H0 H100 H0100. unfold getPercentage, Math_min, Math_max.
  destruct (isMate number props).
  - destruct (gt (mateIn number props) (literal 0)); auto.
  - set (p := add (literal 50) (mul (div (evaluation number props) (literal 10)) (literal 50))).
    split; [|split; [|discriminate]].
    + destruct (gt (literal 0) p) eqn:E1.
      * destruct (gt (literal 0) (literal 100)); [discriminate|exact H0].
      * destruct (gt p (literal 100)); [exact H0100 | exact E1].
    + destruct (gt (literal 0) p) eqn:E1.
      * destruct (gt (literal 0) (literal 100)) eqn:E2; [exact H100|exact E2].
      * destruct (gt p (literal 100)) eqn:E2; [exact H100 | exact E2].
Qed.

Lemma percentage_within_bounds_witness :
  Q_gt 0 (Q_getPercentage {| evaluation := (-25 # 1)%Q; isMate := false;
                             mateIn := 0%Q; isReviewMode := true |}) = false /\
  Q_gt (Q_getPercentage {| evaluation := (25 # 1)%Q; isMate := false;
                           mateIn := 0%Q; isReviewMode := true |}) 100 = false /\
  (Q_getPercentage {| evaluation := (3 # 10)%Q; isMate := false;
                      mateIn := 0%Q; isReviewMode := true |} == 103 # 2)%Q.
Proof.
  split; [|split].
  - apply (percentage_within_bounds Q inject_Z Q_gt Qplus Qmult Qdiv); reflexivity.
  - apply (percentage_within_bounds Q inject_Z Q_gt Qplus Qmult Qdiv); reflexivity.
  - vm_compute. reflexivity.
Defined.

End BarFacts.

(** * The further properties on the miniature engine *)

Section MoreExamples.
Import JS Coach KingWalk Review Session Samples.

Lemma review_buttons_keep_cursor_witness :
  currentMoveIndex (presses [Next; Next; Next; Previous; First; Previous] three_moves) = 0 /\
  fen (game (presses [Next; Next; Next; Previous; First; Previous] three_moves)) = "e2" /\
  0 <= currentMoveIndex (presses [Last; Next; Previous; Previous; Previous] three_moves)
    < 3.
Proof.
  split; [reflexivity|]. split; [reflexivity|].
  apply (review_buttons_keep_cursor [Last; Next; Previous; Previous; Previous] three_moves).
  vm_compute. split; [discriminate|reflexivity].
Defined.

Lemma next_previous_round_trip_witness :
  currentMoveIndex (press Previous (press Next at_second_move)) = 1 /\
  game (press Previous (press Next at_second_move)) = game at_second_move /\
  game (press Next (press Previous at_second_move)) = game at_second_move.
Proof.
  destruct (next_previous_round_trip at_second_move) as [Hnp Hpn].
  - reflexivity.
  - vm_compute. split; [discriminate|reflexivity].
  - destruct Hnp as (_ & Hc & Hg).
    + reflexivity.
    + eexists. reflexivity.
    + destruct Hpn as (_ & _ & Hg'); [reflexivity|].
      split; [exact Hc|]. split; [exact Hg | exact Hg'].
Defined.

Lemma next_after_load_witness :
  fen (game three_moves) = "e1" /\
  currentMoveIndex (settle (goToNextMove three_moves) three_moves) = 1 /\
  fen (game (settle (goToNextMove three_moves) three_moves)) = "e3".
Proof.
  destruct (next_after_load (setPgnInput "e2 e3 d4" initial) (moves three_moves)
              eq_refl)
    as (_ & _ & _ & Htwo).
  destruct Htwo as [_ Hst]; [vm_compute; lia|].
  destruct (Hst (settle (goToNextMove three_moves) three_moves) eq_refl) as [Hc _].
  split; [reflexivity|]. split; [exact Hc | reflexivity].
Defined.

Lemma navigation_after_direct_play_witness :
  fen (game after_f4) = "f4" /\
  moveHistory after_f4 = ["Ke2"; "Ke3"; "Kd4"; "Kf4"] /\
  goToMove 1 after_f4 = Returns (setMoveHistory (moveHistory after_f4) at_second_move).
Proof.
  destruct (navigation_after_direct_play f4 at_second_move after_f4 1 eq_refl)
    as [Hgo _].
  split; [reflexivity|]. split; [reflexivity|].
  rewrite Hgo. reflexivity.
Defined.


Lemma analysis_follows_results_witness :
  isAnalyzing (ui (requestAnalysis running)) = true /\
  ui (app_run (map Client all_fails) (requestAnalysis running))
    = ui (requestAnalysis running) /\
  analysis (ui (app_run (map Client answered) (requestAnalysis running)))
    = Some sample_analysis /\
  isAnalyzing (ui (app_run (map Client answered) (requestAnalysis running))) = false.
Proof.
  destruct (analysis_follows_results all_fails (requestAnalysis running))
    as (_ & _ & Hnone & _).
  destruct (analysis_follows_results answered (requestAnalysis running))
    as (_ & _ & _ & Hlast & _).
  destruct (Hlast [] sample_analysis eq_refl) as [Ha Hf].
  split; [reflexivity|]. split; [apply Hnone; reflexivity|].
  split; [exact Ha | exact Hf].
Defined.


Lemma callbacks_follow_results_witness :
  Traffic.result_of (Api.Request_ends 3%nat (Api.Answered sample_analysis)) Api.after_open
    = None /\
  Traffic.handed
    (Api.effects
       (Api.run [Api.Call_analyze (Str Api.START_FEN);
                 Api.Socket_message 0%nat (Api.Malformed "{");
                 Api.Request_ends 0%nat (Api.Answered sample_analysis);
                 Api.Request_ends 0%nat (Api.Answered sample_analysis)]
                Api.after_failed_connect))
    = [sample_analysis].
Proof.
  destruct (callbacks_follow_results
              [Api.Call_analyze (Str Api.START_FEN);
               Api.Socket_message 0%nat (Api.Malformed "{");
               Api.Request_ends 0%nat (Api.Answered sample_analysis);
               Api.Request_ends 0%nat (Api.Answered sample_analysis)]
              Api.after_failed_connect) as (Hrun & _).
  destruct (callbacks_follow_results [] Api.after_open) as (_ & _ & _ & _ & Hnone).
  split; [apply Hnone; reflexivity|].
  rewrite Hrun. reflexivity.
Defined.


End MoreExamples.
